(** * SimpleRaytracer: the ray/sphere intersection, the scatter rules and the
    recursive integrator of [src/main.cpp], embedded in Rocq.

    Numbers are IEEE-754 binary floats as the program has them: [f32] is
    binary32 and [f64] is binary64, both through the Standard Library's
    executable specification [SpecFloat] (round to nearest, ties to even).
    Every C++ floating-point operator is one rounded operation of its
    operand type; an [int] operand is first converted to that type.

    [rand()] is modelled by a finite tape of its successive results; the
    effects of the program (drawing from the tape, a failed [assert], the
    unbounded rejection loop) live in the small monad [M]. *)

From Stdlib Require Import ZArith List Bool Lia Permutation.
From Stdlib Require Import Floats.SpecFloat.
Import ListNotations.

(** ** Binary floating point *)

Definition f32 := spec_float.
Definition f64 := spec_float.

Module F32.
Definition prec : Z := 24.
Definition emax : Z := 128.
Definition of_Z (n : Z) : f32 := binary_normalize prec emax n 0 false.
Definition opp : f32 -> f32 := SFopp.
Definition add : f32 -> f32 -> f32 := SFadd prec emax.
Definition sub : f32 -> f32 -> f32 := SFsub prec emax.
Definition mul : f32 -> f32 -> f32 := SFmul prec emax.
Definition div : f32 -> f32 -> f32 := SFdiv prec emax.
Definition ltb : f32 -> f32 -> bool := SFltb.
Definition leb : f32 -> f32 -> bool := SFleb.
Definition eqb : f32 -> f32 -> bool := SFeqb.
(** The value of a decimal literal [n/d] written in the source with an [f]
    suffix: the binary32 number nearest to the quotient. *)
Definition lit (n d : Z) : f32 := div (of_Z n) (of_Z d).
(** [(f32)x] for a binary64 [x]. *)
Definition of_f64 (x : f64) : f32 :=
  match x with
  | S754_finite s m e => binary_normalize prec emax (cond_Zopp s (Zpos m)) e s
  | _ => x
  end.
End F32.

Module F64.
Definition prec : Z := 53.
Definition emax : Z := 1024.
Definition of_Z (n : Z) : f64 := binary_normalize prec emax n 0 false.
Definition opp : f64 -> f64 := SFopp.
Definition add : f64 -> f64 -> f64 := SFadd prec emax.
Definition sub : f64 -> f64 -> f64 := SFsub prec emax.
Definition mul : f64 -> f64 -> f64 := SFmul prec emax.
Definition div : f64 -> f64 -> f64 := SFdiv prec emax.
Definition ltb : f64 -> f64 -> bool := SFltb.
(** [sqrt] of the C library, correctly rounded. *)
Definition sqrt : f64 -> f64 := SFsqrt prec emax.
(** The implicit conversion of a binary32 argument to [double]; it is exact. *)
Definition of_f32 (x : f32) : f64 :=
  match x with
  | S754_finite s m e => binary_normalize prec emax (cond_Zopp s (Zpos m)) e s
  | _ => x
  end.
End F64.

Declare Scope f32_scope.
Delimit Scope f32_scope with f32.
Bind Scope f32_scope with f32.
Notation "a + b" := (F32.add a b) : f32_scope.
Notation "a - b" := (F32.sub a b) : f32_scope.
Notation "a * b" := (F32.mul a b) : f32_scope.
Notation "a / b" := (F32.div a b) : f32_scope.
Notation "- a" := (F32.opp a) : f32_scope.
Notation "a <? b" := (F32.ltb a b) : f32_scope.
Notation "a <=? b" := (F32.leb a b) : f32_scope.
Notation "a =? b" := (F32.eqb a b) : f32_scope.
Notation "a >? b" := (F32.ltb b a) : f32_scope.
Local Open Scope f32_scope.

(** [(f32)sqrt(x)] for a binary32 [x]: the argument is promoted to [double],
    the root taken there, and the result cast back. *)
Definition sqrt_f32 (x : f32) : f32 := F32.of_f64 (F64.sqrt (F64.of_f32 x)).

Definition f0 : f32 := F32.of_Z 0.
Definition f1 : f32 := F32.of_Z 1.
Definition f2 : f32 := F32.of_Z 2.

(** ** Vectors and colours ([types.h])

    [types.h] is not among the sources. *)

(** Modelled from the spec: [v3f] of [types.h], the "Vector3" triple of
    floating-point components with its component-wise operators. *)
Record v3f := mk_v3f { x : f32; y : f32; z : f32 }.

(** Modelled from the spec: [v4f] of [types.h], the colour. [main.cpp] only
    ever gives and combines the three channels red, green and blue (the
    [COLOUR_] macros pass three arguments); the fourth component of the
    quadruple is never read or written by the code of [src/] and is left out. *)
Record v4f := mk_v4f { r : f32; g : f32; b : f32 }.

Module V3.
(** [v3f()] *)
Definition zero : v3f := mk_v3f f0 f0 f0.
Definition add (u v : v3f) : v3f := mk_v3f (x u + x v) (y u + y v) (z u + z v).
Definition sub (u v : v3f) : v3f := mk_v3f (x u - x v) (y u - y v) (z u - z v).
Definition opp (u : v3f) : v3f := mk_v3f (- x u) (- y u) (- z u).
(** [v*s] and [s*v] *)
Definition scale (u : v3f) (s : f32) : v3f := mk_v3f (x u * s) (y u * s) (z u * s).
Definition lscale (s : f32) (u : v3f) : v3f := mk_v3f (s * x u) (s * y u) (s * z u).
Definition divs (u : v3f) (s : f32) : v3f := mk_v3f (x u / s) (y u / s) (z u / s).
End V3.

Module V4.
(** [v4f()] *)
Definition zero : v4f := mk_v4f f0 f0 f0.
Definition add (u v : v4f) : v4f := mk_v4f (r u + r v) (g u + g v) (b u + b v).
Definition lscale (s : f32) (u : v4f) : v4f := mk_v4f (s * r u) (s * g u) (s * b u).
End V4.

(** Modelled from the spec: [dot], [norm_squared], [norm] and [normalize] of
    [types.h], the usual sum of products, its square root and the division of
    each component by the norm. *)
Definition dot (u v : v3f) : f32 := x u * x v + y u * y v + z u * z v.
Definition norm_squared (u : v3f) : f32 := dot u u.
Definition norm (u : v3f) : f32 := sqrt_f32 (norm_squared u).
Definition normalize (u : v3f) : v3f := V3.divs u (norm u).

(** Modelled from the spec: [hadamard] of [types.h], "the Hadamard/element-wise
    product, not a dot product". *)
Definition hadamard (u v : v4f) : v4f := mk_v4f (r u * r v) (g u * g v) (b u * b v).

(** Modelled from the spec: the macro [ABS_VALUE] of [types.h]. *)
Definition ABS_VALUE (a : f32) : f32 := if a <? f0 then - a else a.

(** The order in which a build evaluates the three arguments of
    [v3f(a, b, c)], which C++ leaves open: [ZYX] evaluates the argument of
    [z] first and that of [x] last. *)
Inductive ArgumentOrder : Type := XYZ | XZY | YXZ | YZX | ZXY | ZYX.

(** The vector built from three values in the order they were computed. *)
Definition arrange (order : ArgumentOrder) (first second third : f32) : v3f :=
  match order with
  | XYZ => mk_v3f first second third
  | XZY => mk_v3f first third second
  | YXZ => mk_v3f second first third
  | YZX => mk_v3f third first second
  | ZXY => mk_v3f second third first
  | ZYX => mk_v3f third second first
  end.

(** What [main.cpp] takes from [types.h], from the C library and from the
    compiler without the sources fixing it: the two float limits, the
    near-zero test of a vector ("within a small fixed tolerance"), [pow] and
    the order of evaluation of the arguments of a constructor call. *)
Class Env := {
  F32_MIN : f32;
  F32_MAX : f32;
  near_zero : v3f -> bool;
  pow : f64 -> f64 -> f64;
  argument_order : ArgumentOrder
}.

(** [RAND_MAX] of the C runtime the program is built against ([Windows.h]). *)
Definition RAND_MAX : Z := 32767.

Definition SAMPLES_PER_PIXEL : Z := 32.
Definition MAX_RAY_DEPTH : nat := 10.

Definition COLOUR_WHITE : v4f := mk_v4f f1 f1 f1.
Definition COLOUR_BLACK : v4f := mk_v4f f0 f0 f0.
Definition COLOUR_RED : v4f := mk_v4f f1 f0 f0.
Definition COLOUR_BLUE : v4f := mk_v4f f0 f0 f1.
Definition COLOUR_GREEN : v4f := mk_v4f f0 f1 f0.
Definition COLOUR_CYAN : v4f := mk_v4f f0 f1 f1.
Definition COLOUR_GOLD : v4f := mk_v4f (F32.lit 94 100) (F32.lit 76 100) (F32.lit 11 100).

Definition is_equal (a b error : f32) : bool := ABS_VALUE (a - b) <=? error.
(** The default of [is_equal]'s third parameter, [0.0001f]. *)
Definition is_equal_default_error : f32 := F32.lit 1 10000.

(** ** Effects: the tape of [rand()], assertions, the rejection loop *)

Inductive outcome (A : Type) : Type :=
| Done (a : A) (rest : list Z)
| AssertFailed
| Starved.
Arguments Done {A} a rest.
Arguments AssertFailed {A}.
Arguments Starved {A}.

(** A computation reads the results of [rand()] off a tape. It ends with a
    value and the unread tape, stops at a failed [assert], or is [Starved]:
    it asked for more draws than the tape holds. *)
Definition M (A : Type) : Type := list Z -> outcome A.

Definition ret {A} (a : A) : M A := fun tape => Done a tape.
Definition bind {A B} (m : M A) (k : A -> M B) : M B :=
  fun tape =>
    match m tape with
    | Done a rest => k a rest
    | AssertFailed => AssertFailed
    | Starved => Starved
    end.
Notation "v <- m ;; k" := (bind m (fun v => k))
  (at level 61, m at next level, right associativity).
Notation "m ;;; k" := (bind m (fun _ => k))
  (at level 61, right associativity).

Definition rand : M Z :=
  fun tape => match tape with [] => Starved | n :: rest => Done n rest end.
Definition assert (cond : bool) : M unit :=
  fun tape => if cond then Done tt tape else AssertFailed.

(** ** [main.cpp] *)

Record Ray := mk_Ray { origin : v3f; dir : v3f }.

(** The constructor [Ray(rayOrigin, rayDir, normalized)]. The member
    initialisers copy both parameters into the object; the body then
    assigns the normalised vector to the parameter [rayDir]. *)
Definition Ray_new (rayOrigin rayDir : v3f) (normalized : bool) : Ray :=
  let this := mk_Ray rayOrigin rayDir in
  let rayDir := if negb normalized then normalize rayDir else rayDir in
  this.

Definition at_ (ray : Ray) (t : f32) : v3f := V3.add (origin ray) (V3.scale (dir ray) t).

Record Sphere := mk_Sphere { pos : v3f; radius : f32 }.

Inductive Type_ : Type := NONE | DIFFUSE | METAL | DIALECTRIC.

Record Material := mk_Material {
  type : Type_;
  colour : v4f;
  roughness : f32;
  n : f32
}.

Record RenderObject := mk_RenderObject { material : Material; geometry : Sphere }.

(** [Material result = {};] zero-initialises every member. *)
Definition Material_zero : Material := mk_Material NONE V4.zero f0 f0.

Definition create_diffuse_material (colour : v4f) : Material :=
  let result := Material_zero in
  mk_Material DIFFUSE colour (roughness result) (n result).
Definition create_metal_material (colour : v4f) (roughness : f32) : Material :=
  let result := Material_zero in
  mk_Material METAL colour roughness (n result).
Definition create_dialectric_material (refractiveIndex : f32) : Material :=
  let result := Material_zero in
  mk_Material DIALECTRIC COLOUR_WHITE (roughness result) refractiveIndex.

Section main_cpp.
Context {env : Env}.

(** The three coefficients of the quadratic and its discriminant, as
    [intersection_test] computes them. *)
Definition quadratic_a : f32 := F32.of_Z 1.
Definition quadratic_b (ray : Ray) (sphere : Sphere) : f32 :=
  F32.of_Z 2 * dot (dir ray) (V3.sub (origin ray) (pos sphere)).
Definition quadratic_c (ray : Ray) (sphere : Sphere) : f32 :=
  dot (V3.sub (origin ray) (pos sphere)) (V3.sub (origin ray) (pos sphere))
  - radius sphere * radius sphere.
Definition discriminant (ray : Ray) (sphere : Sphere) : f32 :=
  let a := quadratic_a in
  let b := quadratic_b ray sphere in
  let c := quadratic_c ray sphere in
  b * b - F32.of_Z 4 * a * c.

Definition intersection_test (ray : Ray) (sphere : Sphere) : f32 :=
  let tResult := F32_MIN in
  let a := quadratic_a in
  let b := quadratic_b ray sphere in
  let c := quadratic_c ray sphere in
  let discriminant := b * b - F32.of_Z 4 * a * c in
  if discriminant >? f0 then
    let rootValue := sqrt_f32 discriminant in
    (- b - rootValue) / (F32.of_Z 2 * a)
  else if discriminant =? f0 then
    - b / (F32.of_Z 2 * a)
  else tResult.

(** [rand() / (RAND_MAX + 1.0)] *)
Definition random_f64 : M f64 :=
  k <- rand ;;
  ret (F64.div (F64.of_Z k) (F64.add (F64.of_Z RAND_MAX) (F64.of_Z 1))).

(** [(f32)rand() / (RAND_MAX + 1.0f)] *)
Definition random_f32 : M f32 :=
  k <- rand ;;
  ret (F32.of_Z k / (F32.of_Z RAND_MAX + f1)).

(** [random_f32(min, max)] *)
Definition random_f32_range (min max : f32) : M f32 :=
  assert (min <? max) ;;;
  u <- random_f32 ;;
  ret (u * (max - min) + min).

(** [random_v3f()]: three draws, which become the components in the order
    in which the build evaluates the arguments. *)
Definition random_v3f : M v3f :=
  first <- random_f32 ;;
  second <- random_f32 ;;
  third <- random_f32 ;;
  ret (arrange argument_order first second third).

(** [random_v3f(min, max)]: three calls of [random_f32(min, max)], which
    become the components in the order in which the build evaluates the
    arguments. *)
Definition random_v3f_range (min max : f32) : M v3f :=
  first <- random_f32_range min max ;;
  second <- random_f32_range min max ;;
  third <- random_f32_range min max ;;
  ret (arrange argument_order first second third).

(** The loop of [random_point_in_unit_sphere]. Each round draws three
    numbers, so a run on a tape of [fuel] entries makes at most [fuel]
    rounds: the loop starves on the tape, never on the fuel. *)
Fixpoint random_point_loop (fuel : nat) : M v3f :=
  match fuel with
  | O => fun _ => Starved
  | S fuel' =>
    randomPoint <- random_v3f_range (- f1) f1 ;;
    if norm randomPoint <=? f1 then ret randomPoint else random_point_loop fuel'
  end.

Definition random_point_in_unit_sphere : M v3f :=
  fun tape => random_point_loop (length tape) tape.

Definition random_unit_vector : M v3f :=
  randomPoint <- random_point_in_unit_sphere ;;
  ret (normalize randomPoint).

Definition random_point_in_sphere (sphere : Sphere) : M v3f :=
  randomPoint <- random_point_in_unit_sphere ;;
  ret (V3.add (V3.scale randomPoint (radius sphere)) (pos sphere)).

Definition random_point_in_hemisphere (sphere : Sphere) (hemisphereNormal : v3f) : M v3f :=
  p <- random_point_in_unit_sphere ;;
  let randomPoint := V3.scale p (radius sphere) in
  let randomPoint :=
    if dot randomPoint hemisphereNormal <? f0 then V3.opp randomPoint else randomPoint in
  ret (V3.add randomPoint (pos sphere)).

Definition reflect_direction (dir normal : v3f) : v3f :=
  let projectedDistance := - dot dir normal in
  V3.add dir (V3.scale (V3.lscale f2 normal) projectedDistance).

Definition reflect_ray (ray : Ray) (point normal : v3f) : Ray :=
  Ray_new point (reflect_direction (dir ray) normal) false.

(** Schlick's approximation, in binary64. *)
Definition reflectance (cosine refractRatio : f64) : f64 :=
  let one := F64.of_Z 1 in
  let r0 := F64.div (F64.sub one refractRatio) (F64.add one refractRatio) in
  let r0 := F64.mul r0 r0 in
  F64.add r0 (F64.mul (F64.sub one r0) (pow (F64.sub one cosine) (F64.of_Z 5))).

(** *** [cast_ray] *)

Definition MIN_T : f32 := F32.lit 1 1000.
Definition MAX_T : f32 := F32_MAX.

(** The four locals the intersection loop of [cast_ray] updates. The pointer
    [material] is null ([None]) or points at the material of an object of
    the list, which is never written: it is modelled by that material. *)
Record Closest := mk_Closest {
  tClosest : f32;
  intersectNormal : v3f;
  intersectPoint : v3f;
  material_ptr : option Material
}.

Definition closest_init : Closest := mk_Closest F32_MAX V3.zero V3.zero None.

(** One round of the loop "checking for intersection". *)
Definition closest_step (ray : Ray) (st : Closest) (object : RenderObject) : Closest :=
  let sphere := geometry object in
  let t := intersection_test ray sphere in
  if (t >? MIN_T) && (t <? tClosest st) then
    let intersectPoint := at_ ray t in
    mk_Closest t (normalize (V3.sub intersectPoint (pos sphere))) intersectPoint
      (Some (material object))
  else st.

(** The whole loop, over the objects in the order of the list. *)
Definition closest_scan (ray : Ray) (objectList : list RenderObject) : Closest :=
  fold_left (closest_step ray) objectList closest_init.

(** The test "calculating colour for pixel" that follows the loop. *)
Definition found (hit : Closest) : bool :=
  negb (tClosest hit =? F32_MAX) && (tClosest hit >? f0).

(** The diffuse branch up to the construction of [reflectRay]. *)
Definition diffuse_ray (intersectPoint intersectNormal : v3f) : M Ray :=
  u <- random_unit_vector ;;
  let scatterDirection := V3.add u intersectNormal in
  let scatterDirection :=
    if near_zero (V3.add scatterDirection intersectNormal) then intersectNormal
    else scatterDirection in
  ret (Ray_new intersectPoint scatterDirection false).

(** The metal branch up to the final value of [reflectedDir]. *)
Definition metal_direction (ray : Ray) (material : Material)
    (intersectPoint intersectNormal : v3f) : M v3f :=
  let reflectedDir := reflect_direction (dir ray) intersectNormal in
  if roughness material >? f0 then
    let sphere := mk_Sphere (V3.add intersectPoint reflectedDir) (roughness material) in
    randomPoint <- random_point_in_sphere sphere ;;
    ret (V3.sub randomPoint intersectPoint)
  else ret reflectedDir.

(** The dielectric branch up to the final value of [newRayDir]. *)
Definition dialectric_direction (ray : Ray) (material : Material)
    (intersectNormal : v3f) : M v3f :=
  let worldIndex := f1 in
  let refractRatio := worldIndex / n material in
  let refractRatio :=
    if dot (dir ray) intersectNormal >? f0 then f1 / refractRatio else refractRatio in
  let cosTheta := dot (V3.opp (dir ray)) intersectNormal in
  let sinTheta := sqrt_f32 (F32.of_Z 1 - cosTheta * cosTheta) in
  let internalReflection := refractRatio * sinTheta >? f1 in
  u <- random_f64 ;;
  let shouldReflect :=
    F64.ltb u (reflectance (F64.of_f32 cosTheta) (F64.of_f32 refractRatio)) in
  if internalReflection || shouldReflect then
    ret (reflect_direction (dir ray) intersectNormal)
  else
    let rayPerpendicular :=
      V3.lscale refractRatio (V3.add (dir ray) (V3.lscale cosTheta intersectNormal)) in
    let rayParallel :=
      V3.lscale
        (F32.of_f64 (F64.opp (F64.sqrt (F64.of_f32
           (ABS_VALUE (F32.of_Z 1 - norm_squared rayPerpendicular))))))
        intersectNormal in
    ret (V3.add rayPerpendicular rayParallel).

(** The gradient drawn when nothing is hit. *)
Definition background (ray : Ray) : v4f :=
  let ratio := F32.lit 5 10 * (y (dir ray) + f1) in
  V4.add (V4.lscale (f1 - ratio) COLOUR_WHITE)
         (V4.lscale ratio (mk_v4f (F32.lit 5 10) (F32.lit 8 10) (F32.lit 9 10))).

(** [cast_ray(ray, objectList, numObjects, maxDepth)]: the list stands for
    the array and its length; [maxDepth] is unsigned, so [maxDepth <= 0] is
    [maxDepth == 0] and [maxDepth - 1] is taken of a positive number. *)
Fixpoint cast_ray (maxDepth : nat) (ray : Ray) (objectList : list RenderObject)
    {struct maxDepth} : M v4f :=
  match maxDepth with
  | O => ret COLOUR_BLACK
  | S depth =>
    let hit := closest_scan ray objectList in
    if found hit then
      match material_ptr hit with
      | None => assert false ;;; ret V4.zero
      | Some material =>
        match type material with
        | DIFFUSE =>
          reflectRay <- diffuse_ray (intersectPoint hit) (intersectNormal hit) ;;
          rayColour <- cast_ray depth reflectRay objectList ;;
          ret (hadamard (colour material) rayColour)
        | METAL =>
          reflectedDir <- metal_direction ray material (intersectPoint hit) (intersectNormal hit) ;;
          let reflectedRay := Ray_new (intersectPoint hit) reflectedDir false in
          if dot reflectedDir (intersectNormal hit) >? f0 then
            rayColour <- cast_ray depth reflectedRay objectList ;;
            ret (hadamard (colour material) rayColour)
          else ret COLOUR_BLACK
        | DIALECTRIC =>
          newRayDir <- dialectric_direction ray material (intersectNormal hit) ;;
          let newRay := Ray_new (intersectPoint hit) newRayDir false in
          rayColour <- cast_ray depth newRay objectList ;;
          ret (hadamard (colour material) rayColour)
        | NONE => ret V4.zero
        end
      end
    else ret (background ray)
  end.

End main_cpp.

(** ** The image *)

(** Modelled from the spec: [Image] of the absent headers, "width, height,
    pixels". The pixels are the buffer [main] allocates; the two sizes are
    unsigned 32-bit integers. *)
Record Image := mk_Image { width : Z; height : Z; pixels : list v4f }.

(** Arithmetic on [u32] wraps. *)
Definition u32 (k : Z) : Z := (k mod 2 ^ 32)%Z.

(** [pixels[index] = colour]: the write is defined inside the buffer only. *)
Definition store_pixel (buffer : list v4f) (index : Z) (colour : v4f)
  : option (list v4f) :=
  if (index <? Z.of_nat (length buffer))%Z
  then Some (firstn (Z.to_nat index) buffer ++ colour :: skipn (S (Z.to_nat index)) buffer)
  else None.

Definition set_pixel (image : Image) (x y : Z) (colour : v4f) : option Image :=
  match store_pixel (pixels image) (u32 (u32 (y * width image) + x)) colour with
  | Some buffer => Some (mk_Image (width image) (height image) buffer)
  | None => None
  end.

(** The loop of [fill_image], [count] rounds from the index [i] on. *)
Fixpoint fill_loop (count : nat) (i : Z) (buffer : list v4f) (colour : v4f)
  : option (list v4f) :=
  match count with
  | O => Some buffer
  | S count' =>
    match store_pixel buffer i colour with
    | Some buffer' => fill_loop count' (i + 1)%Z buffer' colour
    | None => None
    end
  end.

Definition fill_image (image : Image) (colour : v4f) : option Image :=
  match fill_loop (Z.to_nat (u32 (width image * height image))) 0 (pixels image) colour with
  | Some buffer => Some (mk_Image (width image) (height image) buffer)
  | None => None
  end.

(** ** A concrete environment

    The limits of binary32 and a usual reading of the near-zero test, to run
    the program on concrete inputs. *)

Definition FLT_MAX : f32 := SFmax_float F32.prec F32.emax.
(** The smallest positive normal number, [2^-126]. *)
Definition FLT_MIN : f32 := S754_finite false 8388608 (-149).

(** Modelled from the spec: [near_zero] of [types.h], "numerically near-zero
    (within a small fixed tolerance)": every component is below the tolerance
    in absolute value. *)
Definition near_zero_within (tolerance : f32) (v : v3f) : bool :=
  (ABS_VALUE (x v) <? tolerance) && (ABS_VALUE (y v) <? tolerance)
  && (ABS_VALUE (z v) <? tolerance).

(** [pow] at the one exponent the program asks for: the fifth power of the
    base, computed exactly and rounded once; a zero, an infinity and NaN
    are their own fifth powers. *)
Definition pow_fifth (base exponent : f64) : f64 :=
  if SFeqb exponent (F64.of_Z 5)
  then match base with
       | S754_finite s m e =>
         binary_normalize F64.prec F64.emax (cond_Zopp s (Z.pos (m ^ 5))) (5 * e) s
       | _ => base
       end
  else S754_nan.

(** The environment with [F32_MAX = FLT_MAX], tolerance [1e-8], a chosen
    order of evaluation and a chosen [F32_MIN]. *)
Definition env_of (order : ArgumentOrder) (f32_min : f32) : Env :=
  {| F32_MIN := f32_min;
     F32_MAX := FLT_MAX;
     near_zero := near_zero_within (F32.lit 1 100000000);
     pow := pow_fifth;
     argument_order := order |}.

(** The same with the arguments evaluated from left to right. *)
Definition env_with (f32_min : f32) : Env := env_of XYZ f32_min.

(** A unit sphere five units down the negative z axis, seen from the origin. *)
Definition centre5 : v3f := mk_v3f f0 f0 (F32.of_Z (-5)).
Definition sphere5 : Sphere := mk_Sphere centre5 f1.
Definition ray_down_z : Ray := Ray_new V3.zero (mk_v3f f0 f0 (F32.of_Z (-1))) true.

(** ** Notions the statements are written in *)

Section notions.
Context {env : Env}.

(** The parameter [intersection_test] reports for an object. *)
Definition t_of (ray : Ray) (object : RenderObject) : f32 :=
  intersection_test ray (geometry object).

(** The loop takes an object when its parameter is above [MIN_T] and below
    the best so far, [bound]. *)
Definition usable (ray : Ray) (bound : f32) (object : RenderObject) : bool :=
  (t_of ray object >? MIN_T) && (t_of ray object <? bound).

(** What the loop records when it takes [object]. *)
Definition hit_record (ray : Ray) (object : RenderObject) : Closest :=
  let t := t_of ray object in
  mk_Closest t (normalize (V3.sub (at_ ray t) (pos (geometry object)))) (at_ ray t)
    (Some (material object)).

End notions.


(** ** Concrete inputs *)

Definition half : f32 := F32.lit 1 2.
Definition grey : v4f := mk_v4f half half half.
(** Where [ray_down_z] meets [sphere5], and the normal there. *)
Definition point4 : v3f := mk_v3f f0 f0 (F32.of_Z (-4)).
Definition normal_z : v3f := mk_v3f f0 f0 f1.

Definition scene_diffuse : list RenderObject :=
  [mk_RenderObject (create_diffuse_material grey) sphere5].
Definition scene_metal (roughness : f32) : list RenderObject :=
  [mk_RenderObject (create_metal_material grey roughness) sphere5].
(** The same scene with the radius of the sphere negated. *)
Definition scene_negative_radius : list RenderObject :=
  [mk_RenderObject (create_metal_material grey f0) (mk_Sphere centre5 (F32.of_Z (-1)))].

(** A sphere of glass. *)
Definition scene_glass : list RenderObject :=
  [mk_RenderObject (create_dialectric_material (F32.lit 3 2)) sphere5].

(** Two objects on the same sphere: the ray meets both at parameter 4. *)
Definition scene_tie : list RenderObject :=
  [mk_RenderObject (create_diffuse_material grey) sphere5;
   mk_RenderObject (create_metal_material COLOUR_GOLD f0) sphere5].

(** Draws of [rand()]: [16384] gives the coordinate [0] in [[-1, 1)], [0]
    gives [-1], [32767] gives [1 - 2^-14], [30720] gives [7/8] and [12288]
    gives [-1/4]. *)
Definition tape_opposite : list Z := [16384; 16384; 0]%Z.
Definition tape_along : list Z := [16384; 16384; 32767]%Z.
Definition tape_sideways : list Z := [16384; 30720; 16384]%Z.
Definition tape_back : list Z := [16384; 16384; 12288]%Z.

(** A ray from the origin straight up, which passes [sphere5] by, and one
    along the x axis that grazes a unit sphere at the parameter [2^-126]. *)
Definition ray_up : Ray := Ray_new V3.zero (mk_v3f f0 f1 f0) true.
Definition ray_along_x : Ray := Ray_new V3.zero (mk_v3f f1 f0 f0) true.
Definition sphere_grazed : Sphere := mk_Sphere (mk_v3f FLT_MIN f1 f0) f1.

(** Whether a float is a number: a zero or a finite value. *)
Definition is_number (u : f32) : bool :=
  match u with
  | S754_zero _ | S754_finite _ _ _ => true
  | S754_infinity _ | S754_nan => false
  end.

(** The two halves of the reading "a sentinel that is not a numeric value and
    can be told from every valid parameter". *)
Definition sentinel_not_a_number (env : Env) : Prop :=
  forall ray sphere,
    (discriminant ray sphere <? f0) = true ->
    is_number (intersection_test ray sphere) = false.
Definition sentinel_distinguishable (env : Env) : Prop :=
  forall ray sphere ray' sphere',
    (discriminant ray sphere <? f0) = true ->
    (f0 <=? discriminant ray' sphere') = true ->
    intersection_test ray sphere <> intersection_test ray' sphere'.

(** A comparison other than [Gt]. *)
Definition not_Gt (c : comparison) : bool := match c with Gt => false | _ => true end.

(** ** Notions for the random helpers *)

(** What [random_f32] and [random_f64] make of the draw [k], and what
    [random_f32(-1.0f, 1.0f)] makes of it. *)
Definition unit_of_draw (k : Z) : f32 := F32.of_Z k / (F32.of_Z RAND_MAX + f1).
Definition unit64_of_draw (k : Z) : f64 :=
  F64.div (F64.of_Z k) (F64.add (F64.of_Z RAND_MAX) (F64.of_Z 1)).
Definition coordinate_of_draw (k : Z) : f32 := unit_of_draw k * (f1 - - f1) + - f1.

(** The point [random_v3f(-1.0f, 1.0f)] makes of three successive draws
    when the arguments are evaluated in the given order. *)
Definition point_of_draws (order : ArgumentOrder) (k1 k2 k3 : Z) : v3f :=
  arrange order (coordinate_of_draw k1) (coordinate_of_draw k2) (coordinate_of_draw k3).

(** Three successive draws, and whether the loop of
    [random_point_in_unit_sphere] accepts the point made of them. *)
Definition triple_draws (t : Z * Z * Z) : list Z := let '(k1, k2, k3) := t in [k1; k2; k3].
Definition triple_point (order : ArgumentOrder) (t : Z * Z * Z) : v3f :=
  let '(k1, k2, k3) := t in point_of_draws order k1 k2 k3.
Definition accepted (order : ArgumentOrder) (t : Z * Z * Z) : bool :=
  norm (triple_point order t) <=? f1.

(** The divisor [RAND_MAX + 1 = 2^15] in either format, and what dividing
    a positive normal number by it gives: the same mantissa, the exponent 15
    lower. *)
Definition divisor32 : f32 := S754_finite false 8388608 (-8).
Definition divisor64 : f64 := S754_finite false 4503599627370496 (-37).
Definition quotient_by_divisor (v : spec_float) : spec_float :=
  match v with
  | S754_finite false m e => S754_finite false m (e - 15)
  | _ => v
  end.

(** The float of a draw: the positive zero, or a positive number with a
    full mantissa of [prec] bits and an exponent from [1 - prec] to [0]. *)
Definition float_of_draw_shape (prec : Z) (v : spec_float) : bool :=
  match v with
  | S754_zero false => true
  | S754_finite false m e =>
    (Z.pos (digits2_pos m) =? prec)%Z && (1 - prec <=? e)%Z && (e <=? 0)%Z
  | _ => false
  end.

(** The ranges the comments of the helpers promise, as one test of a draw,
    with the two divisions replaced by [quotient_by_divisor]. *)
Definition draw_in_ranges (k : Z) : bool :=
  let u := quotient_by_divisor (F32.of_Z k) in
  let d := quotient_by_divisor (F64.of_Z k) in
  let c := u * (f1 - - f1) + - f1 in
  float_of_draw_shape F32.prec (F32.of_Z k)
  && float_of_draw_shape F64.prec (F64.of_Z k)
  && (is_number u && (f0 <=? u) && (u <? f1))
  && (is_number d && SFleb (F64.of_Z 0) d && F64.ltb d (F64.of_Z 1))
  && (is_number c && (- f1 <=? c) && (c <? f1)).

(** [f k], [f (k+1)], ... for [count] consecutive integers. *)
Fixpoint all_from (f : Z -> bool) (k : Z) (count : nat) : bool :=
  match count with
  | O => true
  | S count' => f k && all_from f (k + 1)%Z count'
  end.

(** A draw that [rand()] can return. *)
Definition is_draw (k : Z) : Prop := (0 <= k <= RAND_MAX)%Z.

(** The float next above 1. *)
Definition next_above_one : f32 := S754_finite false 8388609 (-23).

(** A computation that never stops at an assertion. *)
Definition never_aborts {A : Type} (m : M A) : Prop :=
  forall tape, m tape <> AssertFailed.

(** A colour whose three channels are zero. *)
Definition dark (c : v4f) : bool := (r c =? f0) && (g c =? f0) && (b c =? f0).

(** ** Order facts about binary floats *)

Ltac cmp_cases e1 e2 e3 m1 m2 m3 :=
  simpl; change (Pos.compare_cont Eq) with Pos.compare;
  destruct (Z.compare_spec e1 e2), (Z.compare_spec e2 e3), (Z.compare_spec e1 e3);
  simpl; intros; try discriminate; try reflexivity; try lia;
  destruct (Pos.compare_spec m1 m2), (Pos.compare_spec m2 m3), (Pos.compare_spec m1 m3);
  simpl in *; intros; try discriminate; try reflexivity; try lia.

Lemma SFcompare_swap (u v : spec_float) :
  SFcompare v u = option_map CompOpp (SFcompare u v).
Proof.
  destruct u as [s1| s1| |s1 m1 e1], v as [s2| s2| |s2 m2 e2];
    try destruct s1; try destruct s2; try reflexivity; simpl;
    rewrite (Z.compare_antisym e1 e2); change (Pos.compare_cont Eq) with Pos.compare;
    rewrite (Pos.compare_antisym m1 m2);
    destruct (e1 ?= e2)%Z; simpl; try reflexivity;
    destruct (m1 ?= m2)%positive; reflexivity.
Qed.

(** Away from NaN [SFcompare] is a total preorder: two comparisons that are
    not [Gt] compose. *)
Lemma SFcompare_trans (u v w : spec_float) (c1 c2 : comparison) :
  SFcompare u v = Some c1 -> SFcompare v w = Some c2 ->
  not_Gt c1 = true -> not_Gt c2 = true ->
  SFcompare u w = Some (match c1, c2 with Eq, Eq => Eq | _, _ => Lt end).
Proof.
  destruct c1, c2; try discriminate; intros H1 H2 _ _; revert H1 H2;
  destruct u as [s1| s1| |s1 m1 e1], v as [s2| s2| |s2 m2 e2], w as [s3| s3| |s3 m3 e3];
    try destruct s1; try destruct s2; try destruct s3;
    try (simpl; intros; first [discriminate | reflexivity]);
    cmp_cases e1 e2 e3 m1 m2 m3.
Qed.

Lemma SFcompare_None (u v : spec_float) :
  SFcompare u v = None -> u = S754_nan \/ v = S754_nan.
Proof.
  destruct u as [s1| s1| |s1 m1 e1], v as [s2| s2| |s2 m2 e2]; simpl; intros H;
    try discriminate; auto;
    destruct s1; discriminate.
Qed.

Lemma SFcompare_nan_r (u : spec_float) : SFcompare u S754_nan = None.
Proof. destruct u as [s| s| |s m e]; reflexivity. Qed.

Lemma ltb_compare (u v : f32) : (u <? v) = true <-> SFcompare u v = Some Lt.
Proof.
  unfold F32.ltb, SFltb. destruct (SFcompare u v) as [[]|]; split; intros; congruence.
Qed.

Lemma ltb_irrefl (u : f32) : (u <? u) = false.
Proof.
  destruct (u <? u) eqn:E; [|reflexivity].
  apply ltb_compare in E. pose proof (SFcompare_swap u u) as S.
  rewrite E in S. discriminate.
Qed.

Lemma ltb_trans (u v w : f32) : (u <? v) = true -> (v <? w) = true -> (u <? w) = true.
Proof.
  rewrite !ltb_compare. intros H1 H2.
  exact (SFcompare_trans _ _ _ _ _ H1 H2 eq_refl eq_refl).
Qed.

Lemma ltb_asym (u v : f32) : (u <? v) = true -> (v <? u) = false.
Proof.
  intros H. destruct (v <? u) eqn:E; [|reflexivity].
  pose proof (ltb_trans _ _ _ H E) as C. rewrite ltb_irrefl in C. discriminate.
Qed.

Lemma ltb_not_nan_r (u v : f32) : (u <? v) = true -> v <> S754_nan.
Proof.
  intros H ->. apply ltb_compare in H. rewrite SFcompare_nan_r in H. discriminate.
Qed.

(** [u < v] and not [w < v], with [w] a number: then [u < w]. *)
Lemma ltb_below (u v w : f32) :
  (u <? v) = true -> (w <? v) = false -> w <> S754_nan -> (u <? w) = true.
Proof.
  intros H1 H2 Hw. pose proof (ltb_not_nan_r _ _ H1) as Hv.
  destruct (SFcompare w v) as [c|] eqn:E.
  - pose proof (SFcompare_swap w v) as S. rewrite E in S. simpl in S.
    apply ltb_compare in H1. apply ltb_compare.
    destruct c.
    + exact (SFcompare_trans _ _ _ _ _ H1 S eq_refl eq_refl).
    + apply ltb_compare in E. congruence.
    + exact (SFcompare_trans _ _ _ _ _ H1 S eq_refl eq_refl).
  - apply SFcompare_None in E. tauto.
Qed.

Lemma leb_not_ltb (u v : f32) : (u <=? v) = true -> (v <? u) = false.
Proof.
  unfold F32.leb, F32.ltb, SFleb, SFltb. rewrite (SFcompare_swap u v).
  destruct (SFcompare u v) as [[]|]; simpl; congruence.
Qed.

Lemma ltb_not_eqb (u v : f32) : (u <? v) = true -> (u =? v) = false.
Proof.
  unfold F32.eqb, F32.ltb, SFeqb, SFltb.
  destruct (SFcompare u v) as [[]|]; simpl; congruence.
Qed.

(** ** Zeros, signs and the constant [2*a] *)

Lemma eqb_refl (u : f32) : u <> S754_nan -> (u =? u) = true.
Proof.
  intros Hu. unfold F32.eqb, SFeqb. pose proof (SFcompare_swap u u) as S.
  destruct (SFcompare u u) as [[]|] eqn:E; simpl in S; try discriminate; try reflexivity.
  apply SFcompare_None in E. tauto.
Qed.

Lemma two_a : F32.of_Z 2 * quadratic_a = F32.of_Z 2.
Proof. reflexivity. Qed.

Lemma eqb_zero (u : f32) : (u =? f0) = true -> exists s, u = S754_zero s.
Proof.
  destruct u as [s|s| |s m e]; try destruct s; try discriminate;
    intros _; eexists; reflexivity.
Qed.

Lemma leb_cases (u v : f32) : (u <=? v) = true -> (u <? v) = true \/ (v =? u) = true.
Proof.
  unfold F32.leb, F32.ltb, F32.eqb, SFleb, SFltb, SFeqb. rewrite (SFcompare_swap u v).
  destruct (SFcompare u v) as [[]|]; simpl; auto; discriminate.
Qed.

(** A difference [u*u - v] is never the negative zero when [u] is a zero. *)
Lemma square_minus_zero (s : bool) (v : f32) :
  S754_zero s * S754_zero s - v <> S754_zero true.
Proof.
  destruct s, v as [s'|s'| |s' m e]; try destruct s'; discriminate.
Qed.

(** Subtracting a zero from the opposite of [u]: the opposite of [u], as
    long as the zero is not the negative one while [u] is the positive one. *)
Lemma opp_minus_zero (u : f32) (s : bool) :
  (s = true -> forall s', u <> S754_zero s') ->
  - u - S754_zero s = - u.
Proof.
  destruct u as [s'|s'| |s' m e]; intros Hz; try reflexivity.
  destruct s.
  - exfalso. exact (Hz eq_refl s' eq_refl).
  - destruct s'; reflexivity.
Qed.

Lemma eqb_not_ltb (u v : f32) : (v =? u) = true -> (u <? v) = false.
Proof.
  unfold F32.ltb, F32.eqb, SFeqb, SFltb. rewrite (SFcompare_swap u v).
  destruct (SFcompare u v) as [[]|]; simpl; congruence.
Qed.

Lemma sqrt_f32_zero (s : bool) : sqrt_f32 (S754_zero s) = S754_zero s.
Proof. reflexivity. Qed.

Lemma mul_opp_opp (u : f32) : (- u) * (- u) = u * u.
Proof. destruct u as [s|s| |s m e]; try destruct s; reflexivity. Qed.



(** ** The properties of [main.cpp] *)

Section properties.
Context {env : Env}.

Lemma closest_step_unfold (ray : Ray) (st : Closest) (object : RenderObject) :
  closest_step ray st object =
  if usable ray (tClosest st) object then hit_record ray object else st.
Proof. reflexivity. Qed.

Lemma usable_MIN_T ray bound object :
  usable ray bound object = true -> (MIN_T <? t_of ray object) = true.
Proof. unfold usable. intros H. apply andb_prop in H. tauto. Qed.

Lemma usable_bound ray bound object :
  usable ray bound object = true -> (t_of ray object <? bound) = true.
Proof. unfold usable. intros H. apply andb_prop in H. tauto. Qed.

(** The loop from any state: either nothing is taken, or the state at the
    end is the record of the first object of least parameter among those
    the loop can take. *)
Lemma closest_fold (ray : Ray) (objectList : list RenderObject) :
  forall st,
    let hit := fold_left (closest_step ray) objectList st in
    (hit = st /\
     forall object, In object objectList -> usable ray (tClosest st) object = false)
    \/
    (exists i object,
        nth_error objectList i = Some object /\
        usable ray (tClosest st) object = true /\
        hit = hit_record ray object /\
        (forall j other, nth_error objectList j = Some other ->
           (MIN_T <? t_of ray other) = true ->
           (t_of ray other <? t_of ray object) = false) /\
        (forall j other, (j < i)%nat -> nth_error objectList j = Some other ->
           usable ray (tClosest st) other = true ->
           (t_of ray object <? t_of ray other) = true)).
Proof.
  induction objectList as [|first rest IH]; intros st; simpl.
  - left. split; [reflexivity | intros ? []].
  - rewrite closest_step_unfold.
    destruct (usable ray (tClosest st) first) eqn:U.
    + (* [first] is taken *)
      pose proof (usable_MIN_T _ _ _ U) as Umin.
      pose proof (usable_bound _ _ _ U) as Ubound.
      right. destruct (IH (hit_record ray first)) as [[Heq Hnone] | (i & object & Hnth & Hu & Heq & Hmin & Hfirst)].
      * exists 0%nat, first. repeat split; try assumption.
        -- intros [|j] other Hj Hm; simpl in Hj.
           ++ injection Hj as <-. apply ltb_irrefl.
           ++ apply nth_error_In in Hj. specialize (Hnone _ Hj).
              unfold usable in Hnone. simpl in Hnone. fold (t_of ray first) in Hnone.
              rewrite Hm in Hnone. exact Hnone.
        -- intros j other Hj. lia.
      * simpl in Hu. fold (t_of ray first) in Hu.
        pose proof (usable_MIN_T _ _ _ Hu) as Omin.
        pose proof (usable_bound _ _ _ Hu) as Obound.
        exists (S i), object. repeat split; try assumption.
        -- unfold usable. rewrite Omin. simpl. exact (ltb_trans _ _ _ Obound Ubound).
        -- intros [|j] other Hj Hm; simpl in Hj.
           ++ injection Hj as <-. apply ltb_asym. exact Obound.
           ++ exact (Hmin j other Hj Hm).
        -- intros [|j] other Hlt Hj Hu'; simpl in Hj.
           ++ injection Hj as <-. exact Obound.
           ++ pose proof (usable_MIN_T _ _ _ Hu') as Jmin.
              destruct (t_of ray other <? t_of ray first) eqn:Jf.
              ** apply (Hfirst j other); [lia | exact Hj |].
                 unfold usable. rewrite Jmin. simpl. fold (t_of ray first). exact Jf.
              ** apply (ltb_below _ _ _ Obound Jf).
                 exact (ltb_not_nan_r _ _ Jmin).
    + (* [first] is passed over *)
      destruct (IH st) as [[Heq Hnone] | (i & object & Hnth & Hu & Heq & Hmin & Hfirst)].
      * left. split; [exact Heq|]. intros object [<- | Hin]; [exact U | exact (Hnone _ Hin)].
      * right. exists (S i), object. repeat split; try assumption.
        -- intros [|j] other Hj Hm; simpl in Hj.
           ++ injection Hj as <-.
              destruct (t_of ray first <? t_of ray object) eqn:C; [|reflexivity].
              pose proof (ltb_trans _ _ _ C (usable_bound _ _ _ Hu)) as B.
              unfold usable in U. rewrite Hm, B in U. discriminate.
           ++ exact (Hmin j other Hj Hm).
        -- intros [|j] other Hlt Hj Hu'; simpl in Hj.
           ++ injection Hj as <-. congruence.
           ++ apply (Hfirst j other); [lia | exact Hj | exact Hu'].
Qed.


Lemma found_init : found closest_init = false.
Proof.
  unfold found, closest_init. simpl.
  destruct F32_MAX as [s|s| |s m e] eqn:E; try reflexivity;
    rewrite eqb_refl by discriminate; reflexivity.
Qed.

Lemma cast_ray_S (depth : nat) (ray : Ray) (objectList : list RenderObject) :
  cast_ray (S depth) ray objectList =
  let hit := closest_scan ray objectList in
  if found hit then
    match material_ptr hit with
    | None => assert false ;;; ret V4.zero
    | Some material =>
      match type material with
      | DIFFUSE =>
        reflectRay <- diffuse_ray (intersectPoint hit) (intersectNormal hit) ;;
        rayColour <- cast_ray depth reflectRay objectList ;;
        ret (hadamard (colour material) rayColour)
      | METAL =>
        reflectedDir <- metal_direction ray material (intersectPoint hit) (intersectNormal hit) ;;
        let reflectedRay := Ray_new (intersectPoint hit) reflectedDir false in
        if dot reflectedDir (intersectNormal hit) >? f0 then
          rayColour <- cast_ray depth reflectedRay objectList ;;
          ret (hadamard (colour material) rayColour)
        else ret COLOUR_BLACK
      | DIALECTRIC =>
        newRayDir <- dialectric_direction ray material (intersectNormal hit) ;;
        let newRay := Ray_new (intersectPoint hit) newRayDir false in
        rayColour <- cast_ray depth newRay objectList ;;
        ret (hadamard (colour material) rayColour)
      | NONE => ret V4.zero
      end
    end
  else ret (background ray).
Proof. reflexivity. Qed.

(** C4. With no depth left [cast_ray] is black at once, whatever the ray and
    the objects: the result is [(0,0,0)] and the tape of [rand()] is handed
    back unread, so neither the loop over the objects nor any scattering
    has run. *)
Theorem cast_ray_depth_zero_black (ray : Ray) (objectList : list RenderObject)
    (tape : list Z) :
  cast_ray 0 ray objectList tape
  = Done (mk_v4f (S754_zero false) (S754_zero false) (S754_zero false)) tape.
Proof. reflexivity. Qed.

(** C7. A ray that hits no object, with depth left: [cast_ray] returns the
    background gradient, [ratio = 0.5*(dir.y + 1)] and
    [(1 - ratio)*white + ratio*(0.5, 0.8, 0.9)], and draws nothing. *)
Theorem cast_ray_miss_background (depth : nat) (ray : Ray)
    (objectList : list RenderObject) (tape : list Z) :
  (forall object, In object objectList -> usable ray F32_MAX object = false) ->
  cast_ray (S depth) ray objectList tape
  = let ratio := F32.lit 5 10 * (y (dir ray) + F32.of_Z 1) in
    let white := mk_v4f (F32.of_Z 1) (F32.of_Z 1) (F32.of_Z 1) in
    let skyBlue := mk_v4f (F32.lit 5 10) (F32.lit 8 10) (F32.lit 9 10) in
    Done (V4.add (V4.lscale (F32.of_Z 1 - ratio) white) (V4.lscale ratio skyBlue)) tape.
Proof.
  intros Hmiss. rewrite cast_ray_S. cbv zeta.
  assert (closest_scan ray objectList = closest_init) as ->.
  { destruct (closest_fold ray objectList closest_init)
      as [[Heq _] | (i & object & Hnth & Hu & _)].
    - exact Heq.
    - apply nth_error_In in Hnth. change (usable ray F32_MAX object = true) in Hu.
      rewrite (Hmiss _ Hnth) in Hu. discriminate. }
  rewrite found_init. reflexivity.
Qed.

(** C6. A metal hit whose final [reflectedDir] (mirrored, then perturbed when
    the roughness is positive) has a dot product with the normal that is zero
    or negative: [cast_ray] returns black for every positive depth, with the
    tape as the perturbation left it, so no further ray is cast. *)
Theorem cast_ray_metal_absorbed (depth : nat) (ray : Ray)
    (objectList : list RenderObject) (tape rest : list Z)
    (material : Material) (reflectedDir : v3f) :
  let hit := closest_scan ray objectList in
  found hit = true ->
  material_ptr hit = Some material ->
  type material = METAL ->
  metal_direction ray material (intersectPoint hit) (intersectNormal hit) tape
    = Done reflectedDir rest ->
  (dot reflectedDir (intersectNormal hit) <=? f0) = true ->
  cast_ray (S depth) ray objectList tape
  = Done (mk_v4f (S754_zero false) (S754_zero false) (S754_zero false)) rest.
Proof.
  intros hit Hfound Hmat Htype Hdir Hdot. rewrite cast_ray_S. cbv zeta.
  fold hit. rewrite Hfound, Hmat, Htype. unfold bind. rewrite Hdir.
  rewrite (leb_not_ltb _ _ Hdot). reflexivity.
Qed.

Lemma intersection_test_unfold (ray : Ray) (sphere : Sphere) :
  intersection_test ray sphere =
  if discriminant ray sphere >? f0 then
    (- quadratic_b ray sphere - sqrt_f32 (discriminant ray sphere)) / (F32.of_Z 2 * quadratic_a)
  else if discriminant ray sphere =? f0 then
    - quadratic_b ray sphere / (F32.of_Z 2 * quadratic_a)
  else F32_MIN.
Proof. reflexivity. Qed.

(** C8. Whenever the discriminant [b*b - 4*a*c] is not negative, with [a = 1],
    [b = 2*dot(D, O-C)] and [c = dot(O-C, O-C) - r*r], [intersection_test]
    returns the smaller root [(-b - sqrt(discriminant))/2]. *)
Theorem intersection_test_smaller_root (ray : Ray) (sphere : Sphere) :
  (f0 <=? discriminant ray sphere) = true ->
  intersection_test ray sphere
  = (- quadratic_b ray sphere - sqrt_f32 (discriminant ray sphere)) / F32.of_Z 2.
Proof.
  intros Hd. rewrite intersection_test_unfold, two_a.
  destruct (leb_cases _ _ Hd) as [Hpos | Hzero].
  - rewrite Hpos. reflexivity.
  - rewrite (eqb_not_ltb _ _ Hzero), Hzero.
    destruct (eqb_zero _ Hzero) as [s Hs]. rewrite Hs, sqrt_f32_zero.
    rewrite opp_minus_zero; [reflexivity|].
    intros -> s' Hb. unfold discriminant in Hs. cbv zeta in Hs. rewrite Hb in Hs.
    exact (square_minus_zero _ _ Hs).
Qed.

(** C2, as the code has it. Whenever the discriminant is negative,
    [intersection_test] returns the constant [F32_MIN], a value of the type
    [f32] of the parameter itself; when that constant is not above [MIN_T]
    the loop of [cast_ray] passes over the object. *)
Theorem intersection_test_miss_F32_MIN (ray : Ray) (sphere : Sphere) :
  (discriminant ray sphere <? f0) = true ->
  intersection_test ray sphere = F32_MIN /\
  ((F32_MIN <=? MIN_T) = true ->
   forall st material,
     closest_step ray st (mk_RenderObject material sphere) = st).
Proof.
  intros Hd. assert (intersection_test ray sphere = F32_MIN) as Hmin.
  { rewrite intersection_test_unfold, (ltb_asym _ _ Hd).
    rewrite (ltb_not_eqb _ _ Hd). reflexivity. }
  split; [exact Hmin|].
  intros Hlow st material. rewrite closest_step_unfold.
  unfold usable, t_of. simpl. rewrite Hmin, (leb_not_ltb _ _ Hlow). reflexivity.
Qed.

(** C10, as the code has it. [random_f32(min, max)] stops at its assertion,
    before any draw, unless [min < max]. A [Sphere] is a plain aggregate:
    nothing looks at the sign of its radius, and [intersection_test] answers
    for the radius [-radius] what it answers for [radius]. *)
Theorem random_range_asserts_sphere_unchecked (min max : f32) (tape : list Z)
    (ray : Ray) (centre : v3f) (radius : f32) :
  (min <? max) = false ->
  random_f32_range min max tape = AssertFailed /\
  intersection_test ray (mk_Sphere centre (- radius))
  = intersection_test ray (mk_Sphere centre radius).
Proof.
  intros Hlt. split.
  - unfold random_f32_range, bind, assert. rewrite Hlt. reflexivity.
  - rewrite !intersection_test_unfold.
    unfold discriminant, quadratic_c. simpl. rewrite mul_opp_opp. reflexivity.
Qed.

End properties.

(** ** The program on concrete inputs *)

Lemma closest_scan_sphere5 (f32_min : f32) (material : Material) :
  @closest_scan (env_with f32_min) ray_down_z [mk_RenderObject material sphere5]
  = mk_Closest (F32.of_Z 4) normal_z point4 (Some material).
Proof. vm_compute. reflexivity. Qed.

(** Of two objects met at the same parameter the loop keeps the first. *)
Example closest_scan_tie_keeps_first (f32_min : f32) :
  @closest_scan (env_with f32_min) ray_down_z scene_tie
  = mk_Closest (F32.of_Z 4) normal_z point4 (Some (create_diffuse_material grey)).
Proof. vm_compute. reflexivity. Qed.


Lemma found_sphere5 (f32_min : f32) (material : Material) :
  @found (env_with f32_min) (mk_Closest (F32.of_Z 4) normal_z point4 (Some material)) = true.
Proof. vm_compute. reflexivity. Qed.

Lemma diffuse_ray_along (f32_min : f32) :
  @diffuse_ray (env_with f32_min) point4 normal_z tape_along
  = Done (mk_Ray point4 (mk_v3f f0 f0 f2)) [].
Proof. vm_compute. reflexivity. Qed.

(** C1. The constructor never stores the normalised direction: whatever
    [normalized] says, the member [dir] is the vector passed in. On the
    diffuse sphere, with draws that make the random unit vector equal to the
    normal, the ray handed to the recursive [cast_ray], and so to
    [intersection_test], has the direction [(0,0,2)], whose dot product with
    itself is 4. *)
Theorem scattered_ray_direction_not_unit (f32_min : f32) (depth : nat) :
  (forall rayOrigin rayDir normalized,
      dir (Ray_new rayOrigin rayDir normalized) = rayDir) /\
  @cast_ray (env_with f32_min) (S depth) ray_down_z scene_diffuse tape_along
  = (rayColour <- @cast_ray (env_with f32_min) depth
                    (mk_Ray point4 (mk_v3f f0 f0 f2)) scene_diffuse ;;
     ret (hadamard grey rayColour)) [] /\
  dot (mk_v3f f0 f0 f2) (mk_v3f f0 f0 f2) = F32.of_Z 4.
Proof.
  split; [reflexivity|]. split; [|reflexivity].
  rewrite cast_ray_S. unfold scene_diffuse at 1. rewrite closest_scan_sphere5. cbv zeta.
  rewrite found_sphere5. cbn [material_ptr type create_diffuse_material intersectPoint intersectNormal colour].
  unfold bind at 1. rewrite diffuse_ray_along. reflexivity.
Qed.

Lemma diffuse_ray_opposite (f32_min : f32) :
  @diffuse_ray (env_with f32_min) point4 normal_z tape_opposite
  = Done (mk_Ray point4 V3.zero) [].
Proof. vm_compute. reflexivity. Qed.

(** C5. On the diffuse sphere, with draws that make the random unit vector
    the opposite of the normal, the sum [random_unit_vector() + normal] is the
    zero vector, which is near zero; the guard tests that sum plus the normal
    once more, which is not, so the zero vector is the direction of the ray
    that is built and handed to the recursive [cast_ray]. *)
Theorem zero_scatter_direction_not_replaced (f32_min : f32) (depth : nat) :
  @random_unit_vector (env_with f32_min) tape_opposite = Done (mk_v3f f0 f0 (- f1)) [] /\
  V3.add (mk_v3f f0 f0 (- f1)) normal_z = V3.zero /\
  @near_zero (env_with f32_min) V3.zero = true /\
  @near_zero (env_with f32_min) (V3.add V3.zero normal_z) = false /\
  @diffuse_ray (env_with f32_min) point4 normal_z tape_opposite
  = Done (mk_Ray point4 V3.zero) [] /\
  @cast_ray (env_with f32_min) (S depth) ray_down_z scene_diffuse tape_opposite
  = (rayColour <- @cast_ray (env_with f32_min) depth (mk_Ray point4 V3.zero) scene_diffuse ;;
     ret (hadamard grey rayColour)) [].
Proof.
  do 5 (split; [vm_compute; reflexivity|]).
  rewrite cast_ray_S. unfold scene_diffuse at 1. rewrite closest_scan_sphere5. cbv zeta.
  rewrite found_sphere5.
  cbn [material_ptr type create_diffuse_material intersectPoint intersectNormal colour].
  unfold bind at 1. rewrite diffuse_ray_opposite. reflexivity.
Qed.

(** C9. A primary ray of unit direction, a metal sphere of albedo
    [(1/2, 1/2, 1/2)] and roughness 4, two levels of depth: the perturbed
    direction [(0, 7/2, 1)] reaches the background as it is, its [ratio] is
    [9/4], and the red channel of the result is [-1/16]. *)
Theorem cast_ray_negative_channel (f32_min : f32) :
  dot (dir ray_down_z) (dir ray_down_z) = f1 /\
  (f0 <=? half) = true /\
  @cast_ray (env_with f32_min) 2 ray_down_z (scene_metal (F32.of_Z 4)) tape_sideways
  = Done (mk_v4f (- F32.lit 1 16)
                 (S754_finite false 9227470 (-25))
                 (S754_finite false 13002340 (-25))) [] /\
  (- F32.lit 1 16 <? f0) = true.
Proof. repeat split; vm_compute; reflexivity. Qed.

(** C2, refuted as stated. With [F32_MIN] either of the two usual limits,
    [FLT_MIN] or [-FLT_MAX], the value returned on a negative discriminant is
    a finite number; with [FLT_MIN] it is also the parameter at which
    [ray_along_x] grazes [sphere_grazed], whose discriminant is zero. *)
Lemma sentinel_is_a_number :
  ~ sentinel_not_a_number (env_with FLT_MIN) /\
  ~ sentinel_not_a_number (env_with (- FLT_MAX)) /\
  ~ sentinel_distinguishable (env_with FLT_MIN).
Proof.
  repeat split; intros H.
  - specialize (H ray_up sphere5 ltac:(vm_compute; reflexivity)).
    vm_compute in H. discriminate.
  - specialize (H ray_up sphere5 ltac:(vm_compute; reflexivity)).
    vm_compute in H. discriminate.
  - apply (H ray_up sphere5 ray_along_x sphere_grazed);
      vm_compute; reflexivity.
Qed.

(** C10, refuted as stated. A sphere of radius [-1] is taken as it is:
    [cast_ray] finds it at parameter 4, reflects off it and returns a colour. *)
Lemma negative_radius_accepted :
  (radius (mk_Sphere centre5 (F32.of_Z (-1))) <=? f0) = true /\
  @intersection_test (env_with FLT_MIN) ray_down_z (mk_Sphere centre5 (F32.of_Z (-1)))
  = F32.of_Z 4 /\
  @cast_ray (env_with FLT_MIN) 2 ray_down_z scene_negative_radius []
  = Done (mk_v4f (F32.lit 3 8) (S754_finite false 15099494 (-25))
                 (S754_finite false 15938355 (-25))) [].
Proof. repeat split; vm_compute; reflexivity. Qed.

(** ** Instances of the theorems *)

Lemma intersection_test_miss_witness :
  (discriminant ray_up sphere5 <? f0) = true /\
  @intersection_test (env_with FLT_MIN) ray_up sphere5 = FLT_MIN /\
  @closest_step (env_with FLT_MIN) ray_up (@closest_init (env_with FLT_MIN))
    (mk_RenderObject (create_diffuse_material grey) sphere5)
  = @closest_init (env_with FLT_MIN).
Proof.
  assert ((discriminant ray_up sphere5 <? f0) = true) as Hd by (vm_compute; reflexivity).
  split; [exact Hd|].
  destruct (@intersection_test_miss_F32_MIN (env_with FLT_MIN) ray_up sphere5 Hd)
    as [Hmin Hstep].
  split; [exact Hmin|].
  apply Hstep. vm_compute. reflexivity.
Defined.

Lemma cast_ray_metal_absorbed_witness :
  @cast_ray (env_with FLT_MIN) 6 ray_down_z (scene_metal (F32.of_Z 4)) tape_back
  = Done COLOUR_BLACK [].
Proof.
  apply (@cast_ray_metal_absorbed (env_with FLT_MIN) 5 ray_down_z
           (scene_metal (F32.of_Z 4)) tape_back []
           (create_metal_material grey (F32.of_Z 4)) V3.zero);
    vm_compute; reflexivity.
Defined.

Lemma cast_ray_miss_background_witness :
  @cast_ray (env_with FLT_MIN) 3 ray_up scene_diffuse []
  = Done (mk_v4f (F32.lit 1 2) (F32.lit 8 10) (F32.lit 9 10)) [].
Proof.
  rewrite (@cast_ray_miss_background (env_with FLT_MIN) 2 ray_up scene_diffuse []).
  - vm_compute. reflexivity.
  - intros object [<- | []]. vm_compute. reflexivity.
Defined.

Lemma intersection_test_smaller_root_witness :
  (f0 <=? discriminant ray_down_z sphere5) = true /\
  @intersection_test (env_with FLT_MIN) ray_down_z sphere5 = F32.of_Z 4 /\
  is_equal (@intersection_test (env_with FLT_MIN) ray_down_z sphere5) (F32.of_Z 4)
    is_equal_default_error = true.
Proof.
  assert ((f0 <=? discriminant ray_down_z sphere5) = true) as Hd by (vm_compute; reflexivity).
  split; [exact Hd|].
  rewrite (@intersection_test_smaller_root (env_with FLT_MIN) ray_down_z sphere5 Hd).
  split; vm_compute; reflexivity.
Defined.

Lemma random_range_asserts_witness :
  (f1 <? f1) = false /\
  random_f32_range f1 f1 [5%Z] = AssertFailed /\
  @intersection_test (env_with FLT_MIN) ray_down_z (mk_Sphere centre5 (- f1))
  = @intersection_test (env_with FLT_MIN) ray_down_z (mk_Sphere centre5 f1).
Proof.
  assert ((f1 <? f1) = false) as Hlt by (vm_compute; reflexivity).
  split; [exact Hlt|].
  exact (@random_range_asserts_sphere_unchecked (env_with FLT_MIN) f1 f1 [5%Z]
           ray_down_z centre5 f1 Hlt).
Defined.

(** ** The random helpers *)

Lemma all_from_spec (f : Z -> bool) (count : nat) :
  forall k, all_from f k count = true ->
  forall j, (k <= j < k + Z.of_nat count)%Z -> f j = true.
Proof.
  induction count as [|count IH]; intros k H j Hj.
  - simpl in Hj. lia.
  - simpl in H. apply andb_prop in H. destruct H as [Hk Hrest].
    destruct (Z.eq_dec j k) as [->|Hne]; [exact Hk|].
    apply (IH (k + 1)%Z Hrest). lia.
Qed.

Ltac split_andb :=
  repeat match goal with
         | H : (_ && _)%bool = true |- _ => apply andb_prop in H; destruct H
         end.

(** *** Division by [RAND_MAX + 1] *)

Lemma div_eucl_exact (a d q : Z) :
  (0 < d)%Z -> a = (d * q)%Z -> Z.div_eucl a d = (q, 0%Z).
Proof.
  intros Hd Ha.
  pose proof (Z.div_eucl_eq a d ltac:(lia)) as E.
  pose proof (Z.mod_pos_bound a d Hd) as B. unfold Z.modulo in B.
  destruct (Z.div_eucl a d) as [q' r']. simpl in B.
  assert (r' = d * (q - q'))%Z as Hr by lia.
  assert (q - q' = 0)%Z as Hq by nia.
  f_equal; lia.
Qed.

(** Dividing a normal number by a power of two that is itself normal, away
    from the ends of the exponent range: the mantissa stays and the exponent
    drops. [half] is the mantissa [2^(prec-1)] of the divisor. *)
Lemma div_core_power_of_two (prec emax : Z) (m half : positive) (e ed : Z) :
  Z.pos (digits2_pos m) = prec -> Z.pos (digits2_pos half) = prec ->
  (Z.pos half * 2 = 2 ^ prec)%Z -> (0 < prec)%Z ->
  (3 - emax - prec <= e - ed - prec)%Z ->
  SFdiv_core_binary prec emax (Z.pos m) e (Z.pos half) ed
  = (Z.pos m~0, (e - ed - prec)%Z, loc_Exact).
Proof.
  intros Hm Hh Hpow Hp Hlow. unfold SFdiv_core_binary.
  change (Zdigits2 (Z.pos m)) with (Z.pos (digits2_pos m)).
  change (Zdigits2 (Z.pos half)) with (Z.pos (digits2_pos half)).
  rewrite Hm, Hh.
  assert (Z.min (fexp prec emax (prec + e - (prec + ed))) (e - ed) = e - ed - prec)%Z as ->
    by (unfold fexp, emin; lia).
  replace (e - ed - (e - ed - prec))%Z with prec by lia.
  destruct prec as [|p|p] eqn:Ep; try lia.
  rewrite (div_eucl_exact (Z.shiftl (Z.pos m) (Z.pos p)) (Z.pos half) (Z.pos m~0)).
  - unfold new_location. destruct (Z.even (Z.pos half)); reflexivity.
  - lia.
  - rewrite Z.shiftl_mul_pow2 by lia. rewrite <- Hpow. lia.
Qed.

Lemma round_aux_one_bit (prec emax : Z) (s : bool) (m : positive) (e : Z) :
  Z.pos (digits2_pos m) = prec ->
  (3 - emax - prec <= e + 1)%Z -> (e + 1 <= emax - prec)%Z ->
  binary_round_aux prec emax s (Z.pos m~0) e loc_Exact = S754_finite s m (e + 1).
Proof.
  intros Hm Hlow Hhigh. unfold binary_round_aux, shr_fexp.
  change (Zdigits2 (Z.pos m~0)) with (Z.pos (Pos.succ (digits2_pos m))).
  rewrite Pos2Z.inj_succ, Hm.
  replace (fexp prec emax (Z.succ prec + e) - e)%Z with 1%Z by (unfold fexp, emin; lia).
  cbn [shr shr_record_of_loc iter_pos shr_1 orb loc_of_shr_record shr_m round_nearest_even].
  change (Zdigits2 (Z.pos m)) with (Z.pos (digits2_pos m)). rewrite Hm.
  replace (fexp prec emax (prec + (e + 1)) - (e + 1))%Z with 0%Z by (unfold fexp, emin; lia).
  cbn [shr shr_m]. 
  replace (e + 1 <=? emax - prec)%Z with true by (symmetry; apply Z.leb_le; lia).
  reflexivity.
Qed.

Lemma div_power_of_two (prec emax : Z) (m half : positive) (e ed : Z) :
  Z.pos (digits2_pos m) = prec -> Z.pos (digits2_pos half) = prec ->
  (Z.pos half * 2 = 2 ^ prec)%Z -> (0 < prec)%Z ->
  (3 - emax - prec <= e - ed - prec)%Z -> (e - ed - prec + 1 <= emax - prec)%Z ->
  SFdiv prec emax (S754_finite false m e) (S754_finite false half ed)
  = S754_finite false m (e - ed - prec + 1).
Proof.
  intros Hm Hh Hpow Hp Hlow Hhigh. unfold SFdiv.
  rewrite (div_core_power_of_two prec emax m half e ed) by assumption.
  apply round_aux_one_bit; [assumption | lia | lia].
Qed.

Lemma quotient_by_divisor32 (v : f32) :
  float_of_draw_shape F32.prec v = true -> v / divisor32 = quotient_by_divisor v.
Proof.
  destruct v as [[]|s| |[] m e]; try discriminate; try reflexivity.
  intros H. cbn [float_of_draw_shape] in H. split_andb.
  match goal with H : (_ =? _)%Z = true |- _ => apply Z.eqb_eq in H end.
  repeat match goal with H : (_ <=? _)%Z = true |- _ => apply Z.leb_le in H end.
  unfold F32.div, divisor32, quotient_by_divisor.
  rewrite (div_power_of_two F32.prec F32.emax m 8388608 e (-8));
    try assumption; try reflexivity; unfold F32.prec, F32.emax in *; try lia.
  f_equal. lia.
Qed.

Lemma quotient_by_divisor64 (v : f64) :
  float_of_draw_shape F64.prec v = true -> F64.div v divisor64 = quotient_by_divisor v.
Proof.
  destruct v as [[]|s| |[] m e]; try discriminate; try reflexivity.
  intros H. cbn [float_of_draw_shape] in H. split_andb.
  match goal with H : (_ =? _)%Z = true |- _ => apply Z.eqb_eq in H end.
  repeat match goal with H : (_ <=? _)%Z = true |- _ => apply Z.leb_le in H end.
  unfold F64.div, divisor64, quotient_by_divisor.
  rewrite (div_power_of_two F64.prec F64.emax m 4503599627370496 e (-37));
    try assumption; try reflexivity; unfold F64.prec, F64.emax in *; try lia.
  f_equal. lia.
Qed.

(** Every draw, one after the other. *)
Lemma every_draw_in_ranges : all_from draw_in_ranges 0 (Z.to_nat (RAND_MAX + 1)) = true.
Proof. vm_compute. reflexivity. Qed.

Lemma draw_in_ranges_ok (k : Z) : is_draw k -> draw_in_ranges k = true.
Proof.
  intros Hk. apply (all_from_spec draw_in_ranges _ 0 every_draw_in_ranges).
  unfold is_draw, RAND_MAX in *. rewrite Z2Nat.id; lia.
Qed.

(** What the three helpers make of a draw, and the ranges of the results. *)
Lemma draw_results (k : Z) :
  is_draw k ->
  (is_number (unit_of_draw k) = true /\ (f0 <=? unit_of_draw k) = true /\
   (unit_of_draw k <? f1) = true) /\
  (is_number (unit64_of_draw k) = true /\ SFleb (F64.of_Z 0) (unit64_of_draw k) = true /\
   F64.ltb (unit64_of_draw k) (F64.of_Z 1) = true) /\
  (is_number (coordinate_of_draw k) = true /\ (- f1 <=? coordinate_of_draw k) = true /\
   (coordinate_of_draw k <? f1) = true).
Proof.
  intros Hk. pose proof (draw_in_ranges_ok k Hk) as H.
  unfold draw_in_ranges in H. cbv zeta in H. split_andb.
  assert (unit_of_draw k = quotient_by_divisor (F32.of_Z k)) as Hu
    by (apply quotient_by_divisor32; assumption).
  assert (unit64_of_draw k = quotient_by_divisor (F64.of_Z k)) as Hd
    by (apply quotient_by_divisor64; assumption).
  unfold coordinate_of_draw. rewrite Hu, Hd. repeat split; assumption.
Qed.

(** X1. [random_f32()] reads one draw and, for every value [rand()] can
    return, gives a number in [[0, 1)]. *)
Theorem random_f32_unit_interval (k : Z) (rest : list Z) :
  is_draw k ->
  exists u, random_f32 (k :: rest) = Done u rest /\
            is_number u = true /\ (f0 <=? u) = true /\ (u <? f1) = true.
Proof.
  intros Hk. exists (unit_of_draw k). split; [reflexivity|].
  exact (proj1 (draw_results k Hk)).
Qed.

(** X2. [random_f64()] reads one draw and, for every value [rand()] can
    return, gives a binary64 number in [[0, 1)]. *)
Theorem random_f64_unit_interval (k : Z) (rest : list Z) :
  is_draw k ->
  exists u, random_f64 (k :: rest) = Done u rest /\
            is_number u = true /\ SFleb (F64.of_Z 0) u = true /\
            F64.ltb u (F64.of_Z 1) = true.
Proof.
  intros Hk. exists (unit64_of_draw k). split; [reflexivity|].
  exact (proj1 (proj2 (draw_results k Hk))).
Qed.

(** X3. [random_f32(-1.0f, 1.0f)], the call the rejection loop makes, passes
    its assertion, reads one draw and gives a number in [[-1, 1)]. *)
Theorem random_f32_range_unit_cube (k : Z) (rest : list Z) :
  is_draw k ->
  exists c, random_f32_range (- f1) f1 (k :: rest) = Done c rest /\
            is_number c = true /\ (- f1 <=? c) = true /\ (c <? f1) = true.
Proof.
  intros Hk. exists (coordinate_of_draw k). split; [reflexivity|].
  exact (proj2 (proj2 (draw_results k Hk))).
Qed.

(** X4. The range [[min, max)] written above [random_f32(min, max)] is not
    kept for every [min < max]: rounding can carry the result up to [max]
    itself (with [min = 1], [max] the next float and the largest draw). *)
Theorem random_f32_range_reaches_max :
  ~ (forall min max k rest,
        (min <? max) = true -> is_draw k ->
        exists v, random_f32_range min max (k :: rest) = Done v rest /\ (v <? max) = true).
Proof.
  intros H.
  destruct (H f1 next_above_one 32767%Z [] ltac:(vm_compute; reflexivity)
              ltac:(unfold is_draw, RAND_MAX; lia)) as (v & Hv & Hlt).
  vm_compute in Hv. injection Hv as <-. vm_compute in Hlt. discriminate.
Qed.

(** ** The rejection loop *)

Section rejection_loop.
Context {env : Env}.

Lemma random_v3f_range_draws (k1 k2 k3 : Z) (rest : list Z) :
  random_v3f_range (- f1) f1 (k1 :: k2 :: k3 :: rest)
  = Done (point_of_draws argument_order k1 k2 k3) rest.
Proof. reflexivity. Qed.

Lemma random_v3f_range_short (tape : list Z) :
  (length tape < 3)%nat -> random_v3f_range (- f1) f1 tape = Starved.
Proof.
  destruct tape as [|k1 [|k2 [|k3 rest]]]; simpl; intros H; try reflexivity; lia.
Qed.

Lemma random_point_loop_step (fuel : nat) (k1 k2 k3 : Z) (rest : list Z) :
  random_point_loop (S fuel) (k1 :: k2 :: k3 :: rest)
  = if norm (point_of_draws argument_order k1 k2 k3) <=? f1
    then Done (point_of_draws argument_order k1 k2 k3) rest
    else random_point_loop fuel rest.
Proof.
  change (random_point_loop (S fuel)) with
    (randomPoint <- random_v3f_range (- f1) f1 ;;
     if norm randomPoint <=? f1 then ret randomPoint else random_point_loop fuel).
  unfold bind. rewrite random_v3f_range_draws.
  destruct (norm (point_of_draws argument_order k1 k2 k3) <=? f1); reflexivity.
Qed.

Lemma random_point_loop_short (fuel : nat) (tape : list Z) :
  (length tape < 3)%nat -> random_point_loop fuel tape = Starved.
Proof.
  intros H. destruct fuel as [|fuel]; [reflexivity|].
  change (random_point_loop (S fuel)) with
    (randomPoint <- random_v3f_range (- f1) f1 ;;
     if norm randomPoint <=? f1 then ret randomPoint else random_point_loop fuel).
  unfold bind. rewrite (random_v3f_range_short tape H). reflexivity.
Qed.

(** The fuel is immaterial once it covers the tape. *)
Lemma random_point_loop_fuel (fuel1 : nat) :
  forall fuel2 tape,
    (length tape <= fuel1)%nat -> (length tape <= fuel2)%nat ->
    random_point_loop fuel1 tape = random_point_loop fuel2 tape.
Proof.
  induction fuel1 as [|fuel1 IH]; intros fuel2 tape H1 H2.
  - rewrite !random_point_loop_short by lia. reflexivity.
  - destruct tape as [|k1 [|k2 [|k3 rest]]];
      try (rewrite !random_point_loop_short by (simpl; lia); reflexivity).
    simpl in H1, H2. destruct fuel2 as [|fuel2]; [lia|].
    rewrite !random_point_loop_step.
    destruct (norm (point_of_draws argument_order k1 k2 k3) <=? f1); [reflexivity|].
    apply IH; lia.
Qed.

Lemma random_point_unfold (k1 k2 k3 : Z) (rest : list Z) :
  random_point_in_unit_sphere (k1 :: k2 :: k3 :: rest)
  = if norm (point_of_draws argument_order k1 k2 k3) <=? f1
    then Done (point_of_draws argument_order k1 k2 k3) rest
    else random_point_in_unit_sphere rest.
Proof.
  unfold random_point_in_unit_sphere.
  change (length (k1 :: k2 :: k3 :: rest)) with (S (S (S (length rest)))).
  rewrite random_point_loop_step.
  destruct (norm (point_of_draws argument_order k1 k2 k3) <=? f1); [reflexivity|].
  apply random_point_loop_fuel; lia.
Qed.

Lemma random_point_short (tape : list Z) :
  (length tape < 3)%nat -> random_point_in_unit_sphere tape = Starved.
Proof. intros H. unfold random_point_in_unit_sphere. apply random_point_loop_short, H. Qed.

(** Induction over a tape three draws at a time. *)
Lemma tape_triples_ind (P : list Z -> Prop) :
  (forall tape, (length tape < 3)%nat -> P tape) ->
  (forall k1 k2 k3 rest, P rest -> P (k1 :: k2 :: k3 :: rest)) ->
  forall tape, P tape.
Proof.
  intros Hshort Hstep.
  assert (forall bound tape, (length tape <= bound)%nat -> P tape) as H.
  { induction bound as [|bound IH]; intros tape Hlen.
    - apply Hshort. lia.
    - destruct tape as [|k1 [|k2 [|k3 rest]]]; try (apply Hshort; simpl; lia).
      apply Hstep, IH. simpl in Hlen. lia. }
  intros tape. exact (H (length tape) tape (Nat.le_refl _)).
Qed.

Lemma random_point_first_accepted (rejected : list (Z * Z * Z)) :
  forall t rest,
    forallb (fun r => negb (accepted argument_order r)) rejected = true ->
    accepted argument_order t = true ->
    random_point_in_unit_sphere (concat (map triple_draws rejected) ++ triple_draws t ++ rest)
    = Done (triple_point argument_order t) rest.
Proof.
  induction rejected as [|[[j1 j2] j3] rejected IH]; intros [[k1 k2] k3] rest Hrej Hacc.
  - simpl. rewrite random_point_unfold.
    change (norm (point_of_draws argument_order k1 k2 k3) <=? f1)
      with (accepted argument_order (k1, k2, k3)).
    rewrite Hacc. reflexivity.
  - cbn [forallb] in Hrej. apply andb_prop in Hrej. destruct Hrej as [Hj Hrej].
    cbn [map concat triple_draws app]. rewrite random_point_unfold.
    change (norm (point_of_draws argument_order j1 j2 j3) <=? f1)
      with (accepted argument_order (j1, j2, j3)).
    apply negb_true_iff in Hj. rewrite Hj.
    exact (IH (k1, k2, k3) rest Hrej Hacc).
Qed.

(** X5. [random_point_in_unit_sphere] takes the draws three at a time,
    whatever the order in which the build evaluates the three arguments. On
    three draws it returns the point that order makes of them when its norm
    is at most 1 and goes on with the rest of the tape otherwise; so after
    any number of rejected triples it returns the point of the first
    accepted one and leaves the draws behind it unread; with fewer than
    three draws left it starves. *)
Theorem random_point_in_unit_sphere_rounds :
  (forall k1 k2 k3 rest,
      random_point_in_unit_sphere (k1 :: k2 :: k3 :: rest)
      = if norm (point_of_draws argument_order k1 k2 k3) <=? f1
        then Done (point_of_draws argument_order k1 k2 k3) rest
        else random_point_in_unit_sphere rest) /\
  (forall rejected t rest,
      forallb (fun r => negb (accepted argument_order r)) rejected = true ->
      accepted argument_order t = true ->
      random_point_in_unit_sphere
        (concat (map triple_draws rejected) ++ triple_draws t ++ rest)
      = Done (triple_point argument_order t) rest) /\
  random_point_in_unit_sphere [] = Starved /\
  (forall k1, random_point_in_unit_sphere [k1] = Starved) /\
  (forall k1 k2, random_point_in_unit_sphere [k1; k2] = Starved).
Proof.
  split; [exact random_point_unfold|].
  split; [exact random_point_first_accepted|].
  repeat split; intros; apply random_point_short; simpl; lia.
Qed.

Lemma random_point_accepted (tape : list Z) :
  forall p rest,
    random_point_in_unit_sphere tape = Done p rest ->
    (norm p <=? f1) = true /\
    exists used rounds,
      tape = used ++ rest /\ (0 < rounds)%nat /\ length used = (3 * rounds)%nat.
Proof.
  induction tape as [tape Hshort | k1 k2 k3 tape IH] using tape_triples_ind;
    intros p rest H.
  - rewrite (random_point_short tape Hshort) in H. discriminate.
  - rewrite random_point_unfold in H.
    destruct (norm (point_of_draws argument_order k1 k2 k3) <=? f1) eqn:E.
    + injection H as <- <-. split; [exact E|].
      exists [k1; k2; k3], 1%nat. repeat split. lia.
    + destruct (IH p rest H) as [Hn (used & rounds & -> & Hr & Hl)].
      split; [exact Hn|].
      exists (k1 :: k2 :: k3 :: used), (S rounds). repeat split.
      * lia.
      * simpl. lia.
Qed.

(** X6. Whatever [random_point_in_unit_sphere] returns has a norm of at most
    1 (the test of the loop, never NaN), and it has read a positive multiple
    of three draws off the front of the tape. *)
Theorem random_point_in_unit_sphere_accepts (tape : list Z) (p : v3f) (rest : list Z) :
  random_point_in_unit_sphere tape = Done p rest ->
  (norm p <=? f1) = true /\
  exists used rounds,
    tape = used ++ rest /\ (0 < rounds)%nat /\ length used = (3 * rounds)%nat.
Proof. apply random_point_accepted. Qed.

End rejection_loop.

(** The order matters: the same three draws are rejected when the argument
    of [x] is evaluated first and accepted when that of [z] is. *)
Example acceptance_depends_on_order :
  accepted XYZ (571, 18685, 20002)%Z = false /\
  accepted ZYX (571, 18685, 20002)%Z = true.
Proof. split; vm_compute; reflexivity. Qed.

Lemma random_point_in_unit_sphere_accepts_witness :
  (norm (mk_v3f f0 f0 (- f1)) <=? f1) = true /\
  exists used rounds,
    tape_opposite = used ++ [] /\ (0 < rounds)%nat /\ length used = (3 * rounds)%nat.
Proof.
  apply (@random_point_in_unit_sphere_accepts (env_with FLT_MIN)
           tape_opposite (mk_v3f f0 f0 (- f1)) []).
  vm_compute. reflexivity.
Defined.

(** ** Assertions across [cast_ray] *)

Section across_cast_ray.
Context {env : Env}.

Lemma never_aborts_ret {A : Type} (a : A) : never_aborts (ret a).
Proof. intros tape. discriminate. Qed.

Lemma never_aborts_bind {A B : Type} (m : M A) (k : A -> M B) :
  never_aborts m -> (forall a, never_aborts (k a)) -> never_aborts (bind m k).
Proof.
  intros Hm Hk tape. unfold bind. specialize (Hm tape).
  destruct (m tape) as [a rest| |]; [apply Hk | congruence | discriminate].
Qed.

Lemma never_aborts_rand : never_aborts rand.
Proof. intros [|k rest]; discriminate. Qed.

Lemma never_aborts_random_point : never_aborts random_point_in_unit_sphere.
Proof.
  intros tape.
  induction tape as [tape Hshort | k1 k2 k3 tape IH] using tape_triples_ind.
  - rewrite (random_point_short tape Hshort). discriminate.
  - rewrite random_point_unfold.
    destruct (norm (point_of_draws argument_order k1 k2 k3) <=? f1); [discriminate | exact IH].
Qed.


Lemma MIN_T_positive : (f0 <? MIN_T) = true.
Proof. reflexivity. Qed.

Lemma usable_found (ray : Ray) (object : RenderObject) :
  usable ray F32_MAX object = true -> found (hit_record ray object) = true.
Proof.
  intros Hu. unfold found, hit_record. simpl.
  rewrite (ltb_not_eqb _ _ (usable_bound _ _ _ Hu)).
  rewrite (ltb_trans _ _ _ MIN_T_positive (usable_MIN_T _ _ _ Hu)). reflexivity.
Qed.

(** X10. The colour branch of [cast_ray] is taken exactly when some object of
    the list has a parameter above [MIN_T] and below [F32_MAX]; the pointer
    [material] is then set, so [assert(material)] holds. *)
Theorem found_iff_some_object_usable (ray : Ray) (objectList : list RenderObject) :
  (found (closest_scan ray objectList) = true <->
   exists object, In object objectList /\ usable ray F32_MAX object = true) /\
  (found (closest_scan ray objectList) = true ->
   exists material, material_ptr (closest_scan ray objectList) = Some material).
Proof.
  destruct (closest_fold ray objectList closest_init)
    as [[Heq Hnone] | (i & object & Hnth & Hu & Heq & _)];
    change (fold_left (closest_step ray) objectList closest_init)
      with (closest_scan ray objectList) in Heq; rewrite Heq.
  - rewrite found_init. split; [split|]; try discriminate.
    intros (object & Hin & Hu). specialize (Hnone object Hin).
    change (usable ray F32_MAX object = false) in Hnone. congruence.
  - change (usable ray F32_MAX object = true) in Hu.
    split; [split|].
    + intros _. exists object. split; [exact (nth_error_In _ _ Hnth) | exact Hu].
    + intros _. exact (usable_found ray object Hu).
    + intros _. eexists. reflexivity.
Qed.

Lemma found_material (ray : Ray) (objectList : list RenderObject) :
  found (closest_scan ray objectList) = true ->
  material_ptr (closest_scan ray objectList) <> None.
Proof.
  destruct (closest_fold ray objectList closest_init)
    as [[Heq _] | (i & object & _ & _ & Heq & _)];
    change (fold_left (closest_step ray) objectList closest_init)
      with (closest_scan ray objectList) in Heq; rewrite Heq.
  - rewrite found_init. discriminate.
  - discriminate.
Qed.

Lemma never_aborts_diffuse_ray (point normal : v3f) : never_aborts (diffuse_ray point normal).
Proof.
  apply never_aborts_bind; [|intros; apply never_aborts_ret].
  apply never_aborts_bind; [apply never_aborts_random_point | intros; apply never_aborts_ret].
Qed.

Lemma never_aborts_metal_direction (ray : Ray) (material : Material) (point normal : v3f) :
  never_aborts (metal_direction ray material point normal).
Proof.
  unfold metal_direction. cbv zeta. destruct (roughness material >? f0).
  - apply never_aborts_bind; [|intros; apply never_aborts_ret].
    apply never_aborts_bind; [apply never_aborts_random_point | intros; apply never_aborts_ret].
  - apply never_aborts_ret.
Qed.

Lemma never_aborts_dialectric_direction (ray : Ray) (material : Material) (normal : v3f) :
  never_aborts (dialectric_direction ray material normal).
Proof.
  unfold dialectric_direction. cbv zeta.
  apply never_aborts_bind.
  - apply never_aborts_bind; [apply never_aborts_rand | intros; apply never_aborts_ret].
  - intros u. match goal with |- never_aborts (if ?c then _ else _) => destruct c end;
      apply never_aborts_ret.
Qed.

(** X9. [cast_ray] never stops at an assertion, whatever the depth, the ray,
    the objects and the draws: [assert(material)] holds whenever the colour
    branch is taken, and the rejection loop always calls
    [random_f32(-1.0f, 1.0f)]. *)
Theorem cast_ray_never_aborts (maxDepth : nat) (ray : Ray)
    (objectList : list RenderObject) (tape : list Z) :
  cast_ray maxDepth ray objectList tape <> AssertFailed.
Proof.
  revert ray tape. induction maxDepth as [|depth IH]; intros ray tape.
  - discriminate.
  - assert (forall colour r, never_aborts
              (rayColour <- cast_ray depth r objectList ;; ret (hadamard colour rayColour)))
      as Hrec.
    { intros colour r. apply never_aborts_bind; [intros t; apply IH | intros; apply never_aborts_ret]. }
    rewrite cast_ray_S. cbv zeta.
    destruct (found (closest_scan ray objectList)) eqn:Hf; [|discriminate].
    pose proof (found_material ray objectList Hf) as Hm.
    destruct (material_ptr (closest_scan ray objectList)) as [material|]; [|congruence].
    destruct (type material).
    + discriminate.
    + apply never_aborts_bind; [apply never_aborts_diffuse_ray | intros; apply Hrec].
    + apply never_aborts_bind; [apply never_aborts_metal_direction|].
      intros reflectedDir. cbv zeta.
      match goal with |- never_aborts (if ?c then _ else _) => destruct c end;
        [apply Hrec | apply never_aborts_ret].
    + apply never_aborts_bind; [apply never_aborts_dialectric_direction | intros; apply Hrec].
Qed.

End across_cast_ray.


(** ** Signs: negation commutes with rounding *)

Lemma binary_round_aux_negb (prec emax : Z) (s : bool) (m e : Z) (l : location) :
  binary_round_aux prec emax (negb s) m e l = SFopp (binary_round_aux prec emax s m e l).
Proof.
  unfold binary_round_aux.
  destruct (shr_fexp prec emax m e l) as [mrs' e'].
  destruct (shr_fexp prec emax _ e' loc_Exact) as [mrs'' e''].
  destruct (shr_m mrs''); try reflexivity.
  destruct (Z.leb e'' (emax - prec)); reflexivity.
Qed.

Lemma binary_round_negb (prec emax : Z) (s : bool) (m : positive) (e : Z) :
  binary_round prec emax (negb s) m e = SFopp (binary_round prec emax s m e).
Proof.
  unfold binary_round. destruct (shl_align m e _) as [mz ez].
  apply binary_round_aux_negb.
Qed.

Lemma binary_normalize_opp (prec emax : Z) (m e : Z) :
  m <> 0%Z ->
  binary_normalize prec emax (- m) e false = SFopp (binary_normalize prec emax m e false).
Proof.
  destruct m as [|p|p]; intros H; [congruence| |]; simpl.
  - exact (binary_round_negb prec emax false p e).
  - exact (binary_round_negb prec emax true p e).
Qed.

Lemma cond_Zopp_negb (s : bool) (m : Z) : cond_Zopp (negb s) m = (- cond_Zopp s m)%Z.
Proof. destruct s; simpl; lia. Qed.

Lemma SFmul_opp_l (prec emax : Z) (u v : spec_float) :
  SFmul prec emax (SFopp u) v = SFopp (SFmul prec emax u v).
Proof.
  destruct u as [s|s| |s m e], v as [s'|s'| |s' m' e']; try reflexivity;
    try (destruct s, s'; reflexivity).
  simpl. rewrite <- binary_round_aux_negb. destruct s, s'; reflexivity.
Qed.

(** Negating both terms negates the sum, except that an exact zero sum is the
    positive zero either way. *)
Lemma SFadd_opp_opp (prec emax : Z) (u v : spec_float) :
  SFadd prec emax (SFopp u) (SFopp v) = SFopp (SFadd prec emax u v) \/
  (SFadd prec emax u v = S754_zero false /\
   SFadd prec emax (SFopp u) (SFopp v) = S754_zero false).
Proof.
  destruct u as [s|s| |s m e], v as [s'|s'| |s' m' e'];
    try (left; reflexivity);
    try (destruct s, s'; simpl; auto; fail).
  simpl. rewrite !cond_Zopp_negb.
  set (a := cond_Zopp s (Z.pos (fst (shl_align m e (Z.min e e'))))).
  set (c := cond_Zopp s' (Z.pos (fst (shl_align m' e' (Z.min e e'))))).
  destruct (Z.eq_dec (a + c) 0) as [Hz|Hnz].
  - right. replace (- a + - c)%Z with 0%Z by lia. rewrite Hz. split; reflexivity.
  - left. replace (- a + - c)%Z with (- (a + c))%Z by lia.
    apply binary_normalize_opp, Hnz.
Qed.

(** Swapping the terms negates the difference, with the same exception. *)
Lemma SFsub_swap (prec emax : Z) (u v : spec_float) :
  SFsub prec emax v u = SFopp (SFsub prec emax u v) \/
  (SFsub prec emax u v = S754_zero false /\ SFsub prec emax v u = S754_zero false).
Proof.
  destruct u as [s|s| |s m e], v as [s'|s'| |s' m' e'];
    try (left; reflexivity);
    try (destruct s, s'; simpl; auto; fail);
    try (destruct s; simpl; auto; fail);
    try (destruct s'; simpl; auto; fail).
  simpl. rewrite (Z.min_comm e' e).
  set (a := cond_Zopp s (Z.pos (fst (shl_align m e (Z.min e e'))))).
  set (c := cond_Zopp s' (Z.pos (fst (shl_align m' e' (Z.min e e'))))).
  destruct (Z.eq_dec (a - c) 0) as [Hz|Hnz].
  - right. replace (c - a)%Z with 0%Z by lia. rewrite Hz. split; reflexivity.
  - left. replace (c - a)%Z with (- (a - c))%Z by lia.
    apply binary_normalize_opp, Hnz.
Qed.

(** The absolute value is blind to the sign, up to the sign of a zero. *)
Lemma ABS_VALUE_opp_leb (u error : f32) :
  (ABS_VALUE (- u) <=? error) = (ABS_VALUE u <=? error).
Proof.
  destruct u as [s|s| |s m e]; try destruct s;
    destruct error as [s'|s'| |s' m' e']; reflexivity.
Qed.

(** X15. [is_equal] does not depend on the order of the two numbers
    compared. *)
Theorem is_equal_symmetric (a c error : f32) :
  is_equal a c error = is_equal c a error.
Proof.
  unfold is_equal.
  destruct (SFsub_swap F32.prec F32.emax a c) as [H | [H1 H2]].
  - change (c - a = - (a - c)) in H. rewrite H. symmetry. apply ABS_VALUE_opp_leb.
  - change (a - c = S754_zero false) in H1. change (c - a = S754_zero false) in H2.
    rewrite H1, H2. reflexivity.
Qed.

Lemma sub_diag_number (a : f32) : is_number a = true -> a - a = S754_zero false.
Proof.
  destruct a as [s|s| |s m e]; try discriminate; intros _.
  - destruct s; reflexivity.
  - unfold F32.sub. simpl. rewrite Z.sub_diag. reflexivity.
Qed.

(** X16. A number is equal to itself within [error] exactly when [error] is
    not negative (and not NaN); an infinity is never equal to itself, since
    the difference is NaN. *)
Theorem is_equal_reflexive_on_numbers (a error : f32) :
  is_number a = true ->
  is_equal a a error = (f0 <=? error) /\
  (forall s, is_equal (S754_infinity s) (S754_infinity s) error = false).
Proof.
  intros Ha. split.
  - unfold is_equal. rewrite (sub_diag_number a Ha). reflexivity.
  - intros s. destruct s; reflexivity.
Qed.

Lemma is_equal_reflexive_witness :
  is_equal f1 f1 is_equal_default_error = true /\
  is_equal (S754_infinity false) (S754_infinity false) is_equal_default_error = false.
Proof.
  destruct (is_equal_reflexive_on_numbers f1 is_equal_default_error eq_refl) as [H1 H2].
  split; [rewrite H1; reflexivity | apply H2].
Defined.

(** ** The hemisphere *)

Section hemisphere.
Context {env : Env}.

Lemma dot_opp_l (p normal : v3f) :
  dot (V3.opp p) normal = - dot p normal \/
  (dot p normal = S754_zero false /\ dot (V3.opp p) normal = S754_zero false).
Proof.
  unfold dot, V3.opp, F32.add, F32.mul, F32.opp. simpl.
  rewrite !SFmul_opp_l.
  set (a := SFmul F32.prec F32.emax (x p) (x normal)).
  set (c := SFmul F32.prec F32.emax (y p) (y normal)).
  set (d := SFmul F32.prec F32.emax (z p) (z normal)).
  destruct (SFadd_opp_opp F32.prec F32.emax a c) as [H | [H1 H2]].
  - rewrite H. apply SFadd_opp_opp.
  - rewrite H1, H2.
    destruct d as [s|s| |s m e]; try destruct s;
      first [left; reflexivity | right; split; reflexivity].
Qed.

Lemma opp_not_negative (d : f32) : (d <? f0) = true -> (- d <? f0) = false.
Proof.
  destruct d as [s|s| |s m e]; try destruct s; intros H;
    first [discriminate H | reflexivity].
Qed.

(** X8. The point [random_point_in_hemisphere] returns is the centre of the
    sphere plus an offset that is never on the far side of
    [hemisphereNormal]: the dot product of the offset with the normal is not
    negative after the flip. *)
Theorem random_point_in_hemisphere_side (sphere : Sphere) (hemisphereNormal : v3f)
    (tape rest : list Z) (point : v3f) :
  random_point_in_hemisphere sphere hemisphereNormal tape = Done point rest ->
  exists offset,
    point = V3.add offset (pos sphere) /\
    (dot offset hemisphereNormal <? f0) = false.
Proof.
  unfold random_point_in_hemisphere, bind.
  destruct (random_point_in_unit_sphere tape) as [p mid| |]; try discriminate.
  cbv zeta. unfold ret. intros H. injection H as <- _.
  eexists. split; [reflexivity|].
  destruct (dot (V3.scale p (radius sphere)) hemisphereNormal <? f0) eqn:E; [|exact E].
  destruct (dot_opp_l (V3.scale p (radius sphere)) hemisphereNormal) as [H | [_ H]];
    rewrite H; [exact (opp_not_negative _ E) | reflexivity].
Qed.

End hemisphere.

Lemma random_point_in_hemisphere_side_witness :
  exists offset,
    mk_v3f f0 f0 (F32.of_Z (-4)) = V3.add offset (pos sphere5) /\
    (dot offset normal_z <? f0) = false.
Proof.
  apply (@random_point_in_hemisphere_side (env_with FLT_MIN)
           sphere5 normal_z tape_opposite []).
  vm_compute. reflexivity.
Defined.

(** ** The order of the objects *)

Lemma SFcompare_Eq_eq (u v : spec_float) :
  SFcompare u v = Some Eq ->
  u = v \/ exists s s', u = S754_zero s /\ v = S754_zero s'.
Proof.
  destruct u as [s|s| |s m e], v as [s'|s'| |s' m' e']; simpl; intros H;
    try discriminate; try (destruct s; discriminate); try (destruct s'; discriminate).
  - right. exists s, s'. split; reflexivity.
  - left. destruct s, s'; try discriminate; reflexivity.
  - left. change (Pos.compare_cont Eq) with Pos.compare in H.
    destruct s, s'; try discriminate;
      destruct (Z.compare_spec e e'); try discriminate;
      destruct (Pos.compare_spec m m'); try discriminate; subst; reflexivity.
Qed.

(** Two numbers above a third, neither below the other, are the same float. *)
Lemma above_not_below_eq (low u v : f32) :
  (f0 <? low) = true -> (low <? u) = true -> (low <? v) = true ->
  (u <? v) = false -> (v <? u) = false -> u = v.
Proof.
  intros Hlow Hu Hv Huv Hvu.
  destruct (SFcompare u v) as [c|] eqn:E.
  - destruct c.
    + destruct (SFcompare_Eq_eq u v E) as [H | (s & s' & -> & _)]; [exact H|].
      pose proof (ltb_trans _ _ _ Hlow Hu) as C. destruct s; discriminate.
    + apply ltb_compare in E. congruence.
    + pose proof (SFcompare_swap u v) as S. rewrite E in S. simpl in S.
      apply ltb_compare in S. congruence.
  - apply SFcompare_None in E. destruct E as [-> | ->].
    + exfalso. exact (ltb_not_nan_r _ _ Hu eq_refl).
    + exfalso. exact (ltb_not_nan_r _ _ Hv eq_refl).
Qed.

Section object_order.
Context {env : Env}.

(** X12. The order of the objects only breaks ties: over two lists that are
    permutations of each other the loop ends with the same parameter
    [tClosest] and the same [intersectPoint], and [cast_ray] takes the
    colour branch for both or for neither. *)
Theorem closest_scan_permutation (ray : Ray) (objectList objectList' : list RenderObject) :
  Permutation objectList objectList' ->
  tClosest (closest_scan ray objectList) = tClosest (closest_scan ray objectList') /\
  intersectPoint (closest_scan ray objectList) = intersectPoint (closest_scan ray objectList') /\
  found (closest_scan ray objectList) = found (closest_scan ray objectList').
Proof.
  intros Hperm.
  assert (tClosest (closest_scan ray objectList) = tClosest (closest_scan ray objectList') /\
          intersectPoint (closest_scan ray objectList)
          = intersectPoint (closest_scan ray objectList')) as [Ht Hp].
  { destruct (closest_fold ray objectList closest_init)
      as [[Heq Hnone] | (i & object & Hnth & Hu & Heq & Hmin & _)];
    destruct (closest_fold ray objectList' closest_init)
      as [[Heq' Hnone'] | (i' & object' & Hnth' & Hu' & Heq' & Hmin' & _)];
    change (fold_left (closest_step ray) objectList closest_init)
      with (closest_scan ray objectList) in Heq;
    change (fold_left (closest_step ray) objectList' closest_init)
      with (closest_scan ray objectList') in Heq';
    rewrite Heq, Heq'.
    - split; reflexivity.
    - apply nth_error_In in Hnth'.
      apply (Permutation_in _ (Permutation_sym Hperm)) in Hnth'.
      rewrite (Hnone _ Hnth') in Hu'. discriminate.
    - apply nth_error_In in Hnth.
      apply (Permutation_in _ Hperm) in Hnth.
      rewrite (Hnone' _ Hnth) in Hu. discriminate.
    - pose proof (nth_error_In _ _ Hnth) as Hin.
      pose proof (nth_error_In _ _ Hnth') as Hin'.
      apply (Permutation_in _ Hperm) in Hin.
      apply (Permutation_in _ (Permutation_sym Hperm)) in Hin'.
      destruct (In_nth_error _ _ Hin) as [j Hj].
      destruct (In_nth_error _ _ Hin') as [j' Hj'].
      pose proof (usable_MIN_T _ _ _ Hu) as Hm.
      pose proof (usable_MIN_T _ _ _ Hu') as Hm'.
      assert (t_of ray object = t_of ray object') as Ht.
      { apply (above_not_below_eq MIN_T); try assumption.
        - reflexivity.
        - exact (Hmin' j object Hj Hm).
        - exact (Hmin j' object' Hj' Hm'). }
      unfold hit_record. simpl. rewrite Ht. split; reflexivity. }
  split; [exact Ht|]. split; [exact Hp|].
  unfold found. rewrite Ht. reflexivity.
Qed.

End object_order.

(** ** Schlick's approximation at normal incidence *)

Lemma square_not_negative_zero (prec emax : Z) (q : spec_float) :
  SFmul prec emax q q <> S754_zero true.
Proof.
  destruct q as [s|s| |s m e]; try (destruct s; discriminate); try discriminate.
  simpl. rewrite xorb_nilpotent. unfold binary_round_aux.
  destruct (shr_fexp prec emax _ _ _) as [mrs' e'].
  destruct (shr_fexp prec emax _ e' loc_Exact) as [mrs'' e''].
  destruct (shr_m mrs''); try discriminate.
  destruct (Z.leb e'' (emax - prec)); discriminate.
Qed.

Lemma number_times_zero (prec emax : Z) (u : spec_float) :
  is_number u = true -> exists s, SFmul prec emax u (S754_zero false) = S754_zero s.
Proof. destruct u as [s|s| |s m e]; try discriminate; intros _; eexists; reflexivity. Qed.

Lemma number_minus (u : f64) :
  is_number (F64.sub (F64.of_Z 1) u) = true ->
  u <> S754_nan /\ forall s, u <> S754_infinity s.
Proof.
  destruct u as [s|s| |s m e]; intros H; split; try discriminate;
    try (intros s'; discriminate); discriminate H.
Qed.

Section normal_incidence.
Context {env : Env}.

(** X17. At [cosine = 1] the reflectance is [r0] itself: the term
    [(1 - r0)*pow(1 - cosine, 5)] vanishes, provided [pow(0, 5)] is [0] and
    [1 - r0] is a number (so that [r0] is neither infinite nor NaN). *)
Theorem reflectance_at_cosine_one (refractRatio : f64) :
  let one := F64.of_Z 1 in
  let q := F64.div (F64.sub one refractRatio) (F64.add one refractRatio) in
  let r0 := F64.mul q q in
  pow (S754_zero false) (F64.of_Z 5) = S754_zero false ->
  is_number (F64.sub one r0) = true ->
  reflectance one refractRatio = r0.
Proof.
  intros one q r0 Hpow Hnum. unfold reflectance. cbv zeta.
  fold one. fold q. fold r0.
  change (F64.sub one one) with (S754_zero false). rewrite Hpow.
  destruct (number_times_zero F64.prec F64.emax _ Hnum) as [s Hs].
  unfold F64.mul at 1. rewrite Hs.
  destruct (number_minus r0 Hnum) as [Hnan Hinf].
  pose proof (square_not_negative_zero F64.prec F64.emax q) as Hsq.
  fold (F64.mul q q) in Hsq. fold r0 in Hsq.
  destruct r0 as [s'|s'| |s' m e].
  - destruct s'; [congruence|]. destruct s; reflexivity.
  - exfalso. exact (Hinf s' eq_refl).
  - congruence.
  - reflexivity.
Qed.

End normal_incidence.

(** ** The image *)

Lemma u32_range (k : Z) : (0 <= u32 k < 2 ^ 32)%Z.
Proof. unfold u32. apply Z.mod_pos_bound. reflexivity. Qed.

Lemma overwrite_at (buffer : list v4f) (k : nat) (colour : v4f) :
  (k < length buffer)%nat ->
  length (firstn k buffer ++ colour :: skipn (S k) buffer) = length buffer /\
  nth_error (firstn k buffer ++ colour :: skipn (S k) buffer) k = Some colour /\
  forall j, j <> k ->
    nth_error (firstn k buffer ++ colour :: skipn (S k) buffer) j = nth_error buffer j.
Proof.
  intros Hlt.
  assert (length (firstn k buffer) = k) as Hf by (rewrite length_firstn; lia).
  split; [|split].
  - rewrite length_app, Hf. cbn [length]. rewrite length_skipn. lia.
  - rewrite nth_error_app2 by lia. rewrite Hf, Nat.sub_diag. reflexivity.
  - intros j Hj. destruct (Nat.lt_ge_cases j k) as [Hlo | Hhi].
    + rewrite nth_error_app1 by lia. rewrite nth_error_firstn.
      apply Nat.ltb_lt in Hlo. rewrite Hlo. reflexivity.
    + rewrite nth_error_app2 by lia. rewrite Hf.
      destruct (j - k)%nat as [|d] eqn:Ed; [lia|]. cbn [nth_error].
      rewrite nth_error_skipn. f_equal. lia.
Qed.

Lemma store_pixel_Some (buffer : list v4f) (index : Z) (colour : v4f) (buffer' : list v4f) :
  (0 <= index)%Z ->
  store_pixel buffer index colour = Some buffer' ->
  (Z.to_nat index < length buffer)%nat /\
  length buffer' = length buffer /\
  nth_error buffer' (Z.to_nat index) = Some colour /\
  forall j, j <> Z.to_nat index -> nth_error buffer' j = nth_error buffer j.
Proof.
  intros Hi. unfold store_pixel.
  destruct (index <? Z.of_nat (length buffer))%Z eqn:E; [|discriminate].
  apply Z.ltb_lt in E. intros H.
  assert (Z.to_nat index < length buffer)%nat as Hlt by lia.
  split; [exact Hlt|].
  replace buffer' with
    (firstn (Z.to_nat index) buffer ++ colour :: skipn (S (Z.to_nat index)) buffer)
    by congruence.
  exact (overwrite_at buffer (Z.to_nat index) colour Hlt).
Qed.

Lemma u32_small (k : Z) : (0 <= k < 2 ^ 32)%Z -> u32 k = k.
Proof. intros H. unfold u32. apply Z.mod_small. exact H. Qed.

(** The slots of two pixels of the image differ. *)
Lemma row_major_distinct (w x y x' y' : Z) :
  (0 <= x < w)%Z -> (0 <= x' < w)%Z -> (0 <= y)%Z -> (0 <= y')%Z ->
  (x', y') <> (x, y) -> (y' * w + x' <> y * w + x)%Z.
Proof.
  intros Hx Hx' Hy Hy' Hne Heq.
  destruct (Z.eq_dec y' y) as [->|Hy_ne].
  - apply Hne. f_equal. lia.
  - destruct (Z.lt_ge_cases y' y); nia.
Qed.

(** X18. Inside the image ([x] below the width, [y] below the height) and
    with a buffer of at least [width*height] pixels, that product at most
    [2^32]: [set_pixel] writes inside the buffer, at the slot [y*width + x]
    with no wrap-around, and every other pixel of the image, read at its own
    slot, keeps its colour. *)
Theorem set_pixel_within_image (image : Image) (x y : Z) (colour : v4f) :
  (0 <= x < width image)%Z -> (0 <= y < height image)%Z ->
  (width image * height image <= Z.of_nat (length (pixels image)))%Z ->
  (width image * height image <= 2 ^ 32)%Z ->
  exists image',
    set_pixel image x y colour = Some image' /\
    width image' = width image /\ height image' = height image /\
    nth_error (pixels image') (Z.to_nat (y * width image + x)) = Some colour /\
    forall x' y',
      (0 <= x' < width image)%Z -> (0 <= y' < height image)%Z -> (x', y') <> (x, y) ->
      nth_error (pixels image') (Z.to_nat (y' * width image + x'))
      = nth_error (pixels image) (Z.to_nat (y' * width image + x')).
Proof.
  intros Hx Hy Hbuf Hfit.
  assert (0 <= y * width image + x < width image * height image)%Z as Hslot by nia.
  assert (u32 (u32 (y * width image) + x) = y * width image + x)%Z as Hindex.
  { rewrite (u32_small (y * width image)) by nia. apply u32_small. lia. }
  unfold set_pixel. rewrite Hindex.
  destruct (store_pixel (pixels image) (y * width image + x) colour) as [buffer'|] eqn:E.
  - destruct (store_pixel_Some _ _ _ _ (proj1 Hslot) E) as (_ & _ & Hget & Hothers).
    exists (mk_Image (width image) (height image) buffer').
    split; [reflexivity|]. split; [reflexivity|]. split; [reflexivity|].
    split; [exact Hget|].
    intros x' y' Hx' Hy' Hne. apply Hothers.
    pose proof (row_major_distinct (width image) x y x' y' Hx Hx'
                  (proj1 Hy) (proj1 Hy') Hne) as Hd.
    assert (0 <= y' * width image + x')%Z by nia.
    intros Heq. apply Hd. apply Z2Nat.inj; lia.
  - exfalso. unfold store_pixel in E.
    destruct (_ <? Z.of_nat (length (pixels image)))%Z eqn:L; [discriminate|].
    apply Z.ltb_ge in L. lia.
Qed.

Lemma set_pixel_within_image_witness :
  exists image',
    set_pixel (mk_Image 2 2 [COLOUR_RED; COLOUR_RED; COLOUR_RED; COLOUR_RED]) 1 1 COLOUR_BLUE
    = Some image' /\
    width image' = 2%Z /\ height image' = 2%Z /\
    nth_error (pixels image') (Z.to_nat (1 * 2 + 1)) = Some COLOUR_BLUE /\
    forall x' y',
      (0 <= x' < 2)%Z -> (0 <= y' < 2)%Z -> (x', y') <> (1%Z, 1%Z) ->
      nth_error (pixels image') (Z.to_nat (y' * 2 + x'))
      = nth_error [COLOUR_RED; COLOUR_RED; COLOUR_RED; COLOUR_RED] (Z.to_nat (y' * 2 + x')).
Proof.
  apply (set_pixel_within_image
           (mk_Image 2 2 [COLOUR_RED; COLOUR_RED; COLOUR_RED; COLOUR_RED]) 1 1 COLOUR_BLUE);
    simpl; lia.
Defined.

(** X19. [set_pixel] never compares [x] with the width: a column one row's
    width further right is the same pixel as the column [x] one row down. *)
Theorem set_pixel_column_spills (image : Image) (x y : Z) (colour : v4f) :
  set_pixel image (x + width image) y colour = set_pixel image x (y + 1) colour.
Proof.
  unfold set_pixel.
  replace (u32 (u32 (y * width image) + (x + width image)))
    with (u32 (u32 ((y + 1) * width image) + x)); [reflexivity|].
  unfold u32. rewrite !Zplus_mod_idemp_l. f_equal. lia.
Qed.

Lemma store_pixel_after_fill (colour c : v4f) (done : nat) (tail : list v4f) :
  store_pixel (repeat colour done ++ c :: tail) (Z.of_nat done) colour
  = Some (repeat colour (S done) ++ tail).
Proof.
  unfold store_pixel. rewrite length_app, repeat_length. simpl length.
  replace (Z.of_nat done <? Z.of_nat (done + S (length tail)))%Z with true
    by (symmetry; apply Z.ltb_lt; lia).
  rewrite Nat2Z.id. f_equal.
  rewrite firstn_app, repeat_length, Nat.sub_diag, firstn_all2
    by (rewrite repeat_length; lia).
  simpl firstn. rewrite app_nil_r.
  rewrite skipn_app, repeat_length, skipn_all2 by (rewrite repeat_length; lia).
  replace (S done - done)%nat with 1%nat by lia. simpl.
  rewrite app_comm_cons, repeat_cons, <- app_assoc. reflexivity.
Qed.

Lemma store_pixel_outside (colour : v4f) (done : nat) :
  store_pixel (repeat colour done) (Z.of_nat done) colour = None.
Proof.
  unfold store_pixel. rewrite repeat_length.
  replace (Z.of_nat done <? Z.of_nat done)%Z with false
    by (symmetry; apply Z.ltb_ge; lia).
  reflexivity.
Qed.

Lemma fill_loop_spec (colour : v4f) (count : nat) :
  forall done tail,
    fill_loop count (Z.of_nat done) (repeat colour done ++ tail) colour
    = if (count <=? length tail)%nat
      then Some (repeat colour (done + count) ++ skipn count tail)
      else None.
Proof.
  induction count as [|count IH]; intros done tail.
  - simpl. rewrite Nat.add_0_r. reflexivity.
  - destruct tail as [|c tail].
    + simpl. rewrite app_nil_r, store_pixel_outside. reflexivity.
    + cbn [fill_loop]. rewrite store_pixel_after_fill.
      replace (Z.of_nat done + 1)%Z with (Z.of_nat (S done)) by lia.
      rewrite IH. simpl length. simpl skipn.
      change (S count <=? S (length tail))%nat with (count <=? length tail)%nat.
      replace (S done + count)%nat with (done + S count)%nat by lia. reflexivity.
Qed.

(** X20. [fill_image] sets the first [width*height] pixels (the product
    taken in [u32]) to the colour and leaves the sizes and the pixels after
    them alone; when the buffer is shorter than that product it writes past
    its end. *)
Theorem fill_image_fills (image : Image) (colour : v4f) :
  let count := Z.to_nat (u32 (width image * height image)) in
  fill_image image colour
  = if (count <=? length (pixels image))%nat
    then Some (mk_Image (width image) (height image)
                 (repeat colour count ++ skipn count (pixels image)))
    else None.
Proof.
  intros count. unfold fill_image. fold count.
  pose proof (fill_loop_spec colour count 0 (pixels image)) as H.
  simpl in H. rewrite H.
  destruct (count <=? length (pixels image))%nat; reflexivity.
Qed.

(** ** The accepted point, and a single level of depth *)

Section accepted_point.
Context {env : Env}.

Lemma random_point_from_draws (tape : list Z) :
  forall p rest,
    random_point_in_unit_sphere tape = Done p rest ->
    exists k1 k2 k3,
      In k1 tape /\ In k2 tape /\ In k3 tape /\ p = point_of_draws argument_order k1 k2 k3.
Proof.
  induction tape as [tape Hshort | k1 k2 k3 tape IH] using tape_triples_ind;
    intros p rest H.
  - rewrite (random_point_short tape Hshort) in H. discriminate.
  - rewrite random_point_unfold in H.
    destruct (norm (point_of_draws argument_order k1 k2 k3) <=? f1).
    + injection H as <- _. exists k1, k2, k3.
      split; [left; reflexivity|]. split; [right; left; reflexivity|].
      split; [right; right; left; reflexivity | reflexivity].
    + destruct (IH p rest H) as (jx & jy & jz & Hx & Hy & Hz & ->).
      exists jx, jy, jz.
      repeat split; try (right; right; right; assumption).
Qed.

Lemma coordinate_in_range (k : Z) :
  is_draw k ->
  is_number (coordinate_of_draw k) = true /\
  (- f1 <=? coordinate_of_draw k) = true /\ (coordinate_of_draw k <? f1) = true.
Proof.
  intros Hk. exact (proj2 (proj2 (draw_results k Hk))).
Qed.

(** X7. When every entry of the tape is a value [rand()] can return, each
    coordinate of the point [random_point_in_unit_sphere] returns is a
    number in [[-1, 1)]. *)
Theorem random_point_in_unit_sphere_in_cube (tape rest : list Z) (p : v3f) :
  Forall is_draw tape ->
  random_point_in_unit_sphere tape = Done p rest ->
  (is_number (x p) = true /\ (- f1 <=? x p) = true /\ (x p <? f1) = true) /\
  (is_number (y p) = true /\ (- f1 <=? y p) = true /\ (y p <? f1) = true) /\
  (is_number (z p) = true /\ (- f1 <=? z p) = true /\ (z p <? f1) = true).
Proof.
  intros Hall H.
  destruct (random_point_from_draws tape p rest H) as (k1 & k2 & k3 & Hx & Hy & Hz & ->).
  rewrite Forall_forall in Hall.
  unfold point_of_draws. destruct argument_order; cbn [arrange x y z];
    repeat split; apply coordinate_in_range; auto.
Qed.

End accepted_point.

Lemma random_point_in_unit_sphere_in_cube_witness :
  (is_number f0 = true /\ (- f1 <=? f0) = true /\ (f0 <? f1) = true) /\
  (is_number f0 = true /\ (- f1 <=? f0) = true /\ (f0 <? f1) = true) /\
  (is_number (- f1) = true /\ (- f1 <=? - f1) = true /\ (- f1 <? f1) = true).
Proof.
  apply (@random_point_in_unit_sphere_in_cube (env_with FLT_MIN)
           tape_opposite [] (mk_v3f f0 f0 (- f1))).
  - repeat constructor; unfold is_draw, RAND_MAX; lia.
  - vm_compute. reflexivity.
Defined.

Lemma number_times_f0 (u : f32) : is_number u = true -> (u * f0 =? f0) = true.
Proof. destruct u as [s|s| |s m e]; try destruct s; intros H; try discriminate H; reflexivity. Qed.

Lemma hadamard_black_dark (albedo : v4f) :
  is_number (r albedo) && is_number (g albedo) && is_number (b albedo) = true ->
  dark (hadamard albedo COLOUR_BLACK) = true.
Proof.
  intros H. split_andb. unfold dark, hadamard. simpl.
  change (F32.of_Z 0) with f0.
  rewrite !number_times_f0 by assumption. reflexivity.
Qed.

Section one_level.
Context {env : Env}.

Lemma random_point_returns_needs_draw (tape : list Z) (p : v3f) (mid : list Z) :
  random_point_in_unit_sphere tape = Done p mid -> exists k rest, tape = k :: rest.
Proof.
  destruct tape as [|k rest]; [|eauto].
  rewrite random_point_short by (simpl; lia). discriminate.
Qed.

Lemma dialectric_direction_returns (ray : Ray) (material : Material) (normal : v3f)
    (k : Z) (rest : list Z) :
  exists d, dialectric_direction ray material normal (k :: rest) = Done d rest.
Proof.
  unfold dialectric_direction. cbv zeta. unfold bind at 1.
  unfold random_f64, bind, rand, ret.
  match goal with |- exists _, (if ?c then _ else _) _ = _ => destruct c end;
    eexists; reflexivity.
Qed.

(** X13. With one level of depth only the background is lit. Whatever the
    ray hits, of whatever material type with finite albedo: every colour
    [cast_ray] returns has its three channels zero, because the scattered
    ray is cast with no depth left; and it does return one whenever the
    draws are enough for one run of the rejection loop. *)
Theorem cast_ray_depth_one_hit_is_dark (ray : Ray) (objectList : list RenderObject)
    (tape : list Z) (material : Material) :
  found (closest_scan ray objectList) = true ->
  material_ptr (closest_scan ray objectList) = Some material ->
  is_number (r (colour material)) && is_number (g (colour material))
    && is_number (b (colour material)) = true ->
  (forall result rest,
      cast_ray 1 ray objectList tape = Done result rest -> dark result = true) /\
  (forall p mid,
      random_point_in_unit_sphere tape = Done p mid ->
      exists result rest,
        cast_ray 1 ray objectList tape = Done result rest /\ dark result = true).
Proof.
  intros Hf Hm Hc.
  pose proof (hadamard_black_dark (colour material) Hc) as Hd.
  assert (forall result rest,
             cast_ray 1 ray objectList tape = Done result rest -> dark result = true) as Hdark.
  { intros result rest. rewrite cast_ray_S. cbv zeta. rewrite Hf, Hm.
    destruct (type material); unfold bind.
    - intros H. injection H as <- _. reflexivity.
    - destruct (diffuse_ray _ _ tape) as [reflectRay mid| |]; try discriminate.
      simpl. intros H. injection H as <- _. exact Hd.
    - destruct (metal_direction _ _ _ _ tape) as [reflectedDir mid| |]; try discriminate.
      cbv zeta. destruct (dot reflectedDir _ >? f0).
      + simpl. intros H. injection H as <- _. exact Hd.
      + intros H. injection H as <- _. reflexivity.
    - destruct (dialectric_direction _ _ _ tape) as [newRayDir mid| |]; try discriminate.
      simpl. intros H. injection H as <- _. exact Hd. }
  split; [exact Hdark|].
  intros p mid Hloop.
  assert (exists result rest, cast_ray 1 ray objectList tape = Done result rest)
    as (result & rest & Hret).
  { rewrite cast_ray_S. cbv zeta. rewrite Hf, Hm.
    destruct (type material).
    - eexists. eexists. reflexivity.
    - unfold diffuse_ray, random_unit_vector, bind. rewrite Hloop. simpl.
      eexists. eexists. reflexivity.
    - unfold metal_direction, random_point_in_sphere, bind. cbv zeta.
      destruct (roughness material >? f0).
      + rewrite Hloop. unfold ret.
        match goal with |- context [if ?c then _ else _] => destruct c end;
          simpl; eexists; eexists; reflexivity.
      + unfold ret.
        match goal with |- context [if ?c then _ else _] => destruct c end;
          simpl; eexists; eexists; reflexivity.
    - destruct (random_point_returns_needs_draw tape p mid Hloop) as (k & rest & ->).
      destruct (dialectric_direction_returns ray material
                  (intersectNormal (closest_scan ray objectList)) k rest) as [d Hdir].
      unfold bind. rewrite Hdir.
      eexists. eexists. reflexivity. }
  exists result, rest. split; [exact Hret | exact (Hdark result rest Hret)].
Qed.

End one_level.

Lemma cast_ray_depth_one_witness :
  (exists result rest,
      @cast_ray (env_with FLT_MIN) 1 ray_down_z scene_diffuse tape_opposite
      = Done result rest /\ dark result = true) /\
  (exists result rest,
      @cast_ray (env_with FLT_MIN) 1 ray_down_z (scene_metal (F32.of_Z 4)) tape_opposite
      = Done result rest /\ dark result = true) /\
  (exists result rest,
      @cast_ray (env_with FLT_MIN) 1 ray_down_z scene_glass tape_opposite
      = Done result rest /\ dark result = true).
Proof.
  split; [|split].
  - apply (proj2 (@cast_ray_depth_one_hit_is_dark (env_with FLT_MIN) ray_down_z scene_diffuse
             tape_opposite (create_diffuse_material grey)
             ltac:(vm_compute; reflexivity) ltac:(vm_compute; reflexivity)
             ltac:(vm_compute; reflexivity)) (mk_v3f f0 f0 (- f1)) []).
    vm_compute. reflexivity.
  - apply (proj2 (@cast_ray_depth_one_hit_is_dark (env_with FLT_MIN) ray_down_z
             (scene_metal (F32.of_Z 4)) tape_opposite
             (create_metal_material grey (F32.of_Z 4))
             ltac:(vm_compute; reflexivity) ltac:(vm_compute; reflexivity)
             ltac:(vm_compute; reflexivity)) (mk_v3f f0 f0 (- f1)) []).
    vm_compute. reflexivity.
  - apply (proj2 (@cast_ray_depth_one_hit_is_dark (env_with FLT_MIN) ray_down_z scene_glass
             tape_opposite (create_dialectric_material (F32.lit 3 2))
             ltac:(vm_compute; reflexivity) ltac:(vm_compute; reflexivity)
             ltac:(vm_compute; reflexivity)) (mk_v3f f0 f0 (- f1)) []).
    vm_compute. reflexivity.
Defined.

(** ** A discriminant that is not a number *)

Section not_a_root.
Context {env : Env}.

Lemma not_leb_not_ltb_eqb (u : f32) :
  (f0 <=? u) = false -> (f0 <? u) = false /\ (u =? f0) = false.
Proof.
  unfold F32.leb, F32.ltb, F32.eqb, SFleb, SFltb, SFeqb. rewrite (SFcompare_swap f0 u).
  destruct (SFcompare f0 u) as [[]|]; simpl; intros H; try discriminate H; split; reflexivity.
Qed.

(** X14. Unless the discriminant is zero or positive, that is when it is
    negative or NaN (a ray or a sphere with a NaN or infinite coordinate),
    [intersection_test] returns [F32_MIN]. *)
Theorem intersection_test_otherwise_F32_MIN (ray : Ray) (sphere : Sphere) :
  (f0 <=? discriminant ray sphere) = false ->
  intersection_test ray sphere = F32_MIN.
Proof.
  intros H. destruct (not_leb_not_ltb_eqb _ H) as [H1 H2].
  rewrite intersection_test_unfold, H1, H2. reflexivity.
Qed.

End not_a_root.

(** ** Instances of the further theorems *)

Lemma random_f32_unit_interval_witness :
  exists u, random_f32 [5%Z; 6%Z] = Done u [6%Z] /\
            is_number u = true /\ (f0 <=? u) = true /\ (u <? f1) = true.
Proof. apply random_f32_unit_interval. unfold is_draw, RAND_MAX. lia. Defined.

Lemma random_f64_unit_interval_witness :
  exists u, random_f64 [32767%Z] = Done u [] /\
            is_number u = true /\ SFleb (F64.of_Z 0) u = true /\
            F64.ltb u (F64.of_Z 1) = true.
Proof. apply random_f64_unit_interval. unfold is_draw, RAND_MAX. lia. Defined.

Lemma random_f32_range_unit_cube_witness :
  exists c, random_f32_range (- f1) f1 [0%Z] = Done c [] /\
            is_number c = true /\ (- f1 <=? c) = true /\ (c <? f1) = true.
Proof. apply random_f32_range_unit_cube. unfold is_draw, RAND_MAX. lia. Defined.

Lemma closest_scan_permutation_witness :
  let swapped :=
    [mk_RenderObject (create_metal_material COLOUR_GOLD f0) sphere5;
     mk_RenderObject (create_diffuse_material grey) sphere5] in
  tClosest (@closest_scan (env_with FLT_MIN) ray_down_z scene_tie)
  = tClosest (@closest_scan (env_with FLT_MIN) ray_down_z swapped) /\
  intersectPoint (@closest_scan (env_with FLT_MIN) ray_down_z scene_tie)
  = intersectPoint (@closest_scan (env_with FLT_MIN) ray_down_z swapped) /\
  @found (env_with FLT_MIN) (@closest_scan (env_with FLT_MIN) ray_down_z scene_tie)
  = @found (env_with FLT_MIN) (@closest_scan (env_with FLT_MIN) ray_down_z swapped).
Proof.
  apply (@closest_scan_permutation (env_with FLT_MIN)). unfold scene_tie. apply perm_swap.
Defined.

Lemma reflectance_at_cosine_one_witness :
  let ratio := F64.div (F64.of_Z 3) (F64.of_Z 2) in
  let q := F64.div (F64.sub (F64.of_Z 1) ratio) (F64.add (F64.of_Z 1) ratio) in
  @reflectance (env_with FLT_MIN) (F64.of_Z 1) ratio = F64.mul q q.
Proof.
  apply (@reflectance_at_cosine_one (env_with FLT_MIN)); vm_compute; reflexivity.
Defined.

Lemma intersection_test_otherwise_witness :
  @intersection_test (env_with FLT_MIN)
    (mk_Ray V3.zero (mk_v3f S754_nan f0 f1)) sphere5 = FLT_MIN.
Proof.
  apply (@intersection_test_otherwise_F32_MIN (env_with FLT_MIN)). vm_compute. reflexivity.
Defined.
